(** * NanoVNA S-A-A-2 register protocol: sweep programming, capture and decoding

    A shallow embedding of the serial-protocol core of
    [scripts/nanovna.py] ([NanoVNA_SAA2]), [scripts/nanovna_original.py]
    ([NanoVNA_Simple]) and of the S-parameter bookkeeping of
    [scripts/s2p_extraction.py] ([VNAMeasurement]).

    Python values are modelled as follows.
    - [bytes] objects are [list byte]; an [int] is a [Z]; a [float] is an
      IEEE-754 binary64 value of the standard library's [spec_float].
    - An exception is a value [Raise e] of the [result] type; the serial
      link is threaded through a state monad that keeps, next to the
      device, the log of every exchange on the wire.
    - The [complex] arithmetic of the decoder ([complex(re, im)], [abs],
      [/], [np.angle]) is an interface ([PyComplex]) with the laws of the
      language; [np.linspace] is modelled on exact rationals.
    - The [dict] of S-parameters is a [gmap] with [string] keys. *)

From Stdlib Require Import ZArith QArith Lia Lqa Bool.
From Stdlib Require Import Floats.SpecFloat.
From Stdlib Require Import Strings.Byte.
From stdpp Require Import base list strings gmap.

Local Open Scope Z_scope.

(** ** Exceptions and results *)

Inductive exn : Set :=
  | OverflowError
  | ValueError
  | ZeroDivisionError
  | IndexError
  | KeyError
  | StructError.

Inductive result (A : Type) : Type :=
  | Ok (a : A)
  | Raise (e : exn).
Arguments Ok {A} a.
Arguments Raise {A} e.

Global Instance result_ret : MRet result := λ A a, Ok a.
Global Instance result_bind : MBind result := λ A B k r,
  match r with
  | Ok a => k a
  | Raise e => Raise e
  end.

Definition is_ok {A} (r : result A) : bool :=
  match r with Ok _ => true | Raise _ => false end.

(** ** Bytes *)

(** The byte whose value is [z mod 256]. *)
Definition byte_of_Z (z : Z) : byte :=
  match Byte.of_N (Z.to_N (z mod 256)) with
  | Some b => b
  | None => x00
  end.

Definition Z_of_byte (b : byte) : Z := Z.of_N (Byte.to_N b).

(** [bytes([v0, v1, ...])]: every element must be in [range(256)]. *)
Fixpoint bytes_of_ints (vs : list Z) : result (list byte) :=
  match vs with
  | [] => Ok []
  | v :: vs' =>
      if (0 <=? v) && (v <? 256)
      then bs ← bytes_of_ints vs'; Ok (byte_of_Z v :: bs)
      else Raise ValueError
  end.

(** [b[i]] on a [bytes] object: the element as an [int], or [IndexError].
    Negative indices count from the end. *)
Definition bytes_index (b : list byte) (i : Z) : result Z :=
  let n := Z.of_nat (length b) in
  let j := if i <? 0 then i + n else i in
  if (0 <=? j) && (j <? n)
  then match b !! Z.to_nat j with
       | Some x => Ok (Z_of_byte x)
       | None => Raise IndexError
       end
  else Raise IndexError.

(** [b[lo:hi]] for non-negative constant bounds: slicing clamps, it never
    raises. *)
Definition slice (b : list byte) (lo hi : nat) : list byte :=
  take (hi - lo) (drop lo b).

(** The little-endian digits of [x] in base 256, [n] of them. *)
Fixpoint le_digits (n : nat) (x : Z) : list byte :=
  match n with
  | O => []
  | S n' => byte_of_Z x :: le_digits n' (x / 256)
  end.

(** [x.to_bytes(n, 'little')]: [OverflowError] when [x] is negative or does
    not fit in [n] bytes. *)
Definition to_bytes (n : nat) (x : Z) : result (list byte) :=
  if (0 <=? x) && (x <? 256 ^ Z.of_nat n)
  then Ok (le_digits n x)
  else Raise OverflowError.

(** The value of a byte string read as a little-endian natural number. *)
Fixpoint le_value (b : list byte) : Z :=
  match b with
  | [] => 0
  | x :: b' => Z_of_byte x + 256 * le_value b'
  end.

(** [struct.unpack('<i', b)[0]]: exactly four bytes, two's complement. *)
Definition unpack_i32 (b : list byte) : result Z :=
  if Nat.eqb (length b) 4
  then let u := le_value b in
       Ok (if u <? 2 ^ 31 then u else u - 2 ^ 32)
  else Raise StructError.

(** [struct.unpack('<H', b)[0]]: exactly two bytes, unsigned. *)
Definition unpack_u16 (b : list byte) : result Z :=
  if Nat.eqb (length b) 2
  then Ok (le_value b)
  else Raise StructError.

(** ** Python numbers

    The sweep parameters reach [setup_sweep] as [int] (the documented
    interface) or as [float] (what the interactive callers pass, e.g.
    [1e6]); the arithmetic below follows the language for both. *)

Definition prec : Z := 53.
Definition emax : Z := 1024.

Inductive pynum : Set :=
  | PyInt (z : Z)
  | PyFloat (f : spec_float).

(** [float(z)]: the nearest binary64 value, ties to even; [OverflowError]
    when [z] rounds to [2^1024], that is from [2^1024 - 2^970] on. *)
Definition float_of_int (z : Z) : result spec_float :=
  if Z.abs z <? 2 ^ 1024 - 2 ^ 970
  then Ok (binary_normalize prec emax z 0 false)
  else Raise OverflowError.

Definition as_float (x : pynum) : result spec_float :=
  match x with
  | PyInt z => float_of_int z
  | PyFloat f => Ok f
  end.

Definition is_zero_float (f : spec_float) : bool :=
  match f with S754_zero _ => true | _ => false end.

(** The binary exponent [k] of a positive quotient [x / y]:
    [2^k <= x / y < 2^(k+1)]. *)
Definition quot_exponent (x y : Z) : Z :=
  let d := Z.log2 x - Z.log2 y in
  if (if 0 <=? d then y * 2 ^ d <=? x else y <=? x * 2 ^ (- d))
  then d else d - 1.

(** [num / den] rounded to the nearest integer, ties to even. *)
Definition round_half_even (num den : Z) : Z :=
  let m := num / den in
  let r := num mod den in
  match 2 * r ?= den with
  | Lt => m
  | Eq => if Z.even m then m else m + 1
  | Gt => m + 1
  end.

(** [a / b] on two [int]s: the exact quotient rounded once to binary64
    (nearest, ties to even), not the quotient of the rounded operands.
    [e] is the exponent of the unit in the last place, clamped at the
    subnormal exponent; [OverflowError] when the result is too large. *)
Definition int_truediv (a b : Z) : result spec_float :=
  if b =? 0 then Raise ZeroDivisionError else
  let s := xorb (a <? 0) (b <? 0) in
  let x := Z.abs a in
  let y := Z.abs b in
  if x =? 0 then Ok (S754_zero s) else
  let e := Z.max (quot_exponent x y - 52) (-1074) in
  let m := if 0 <=? e then round_half_even x (y * 2 ^ e)
           else round_half_even (x * 2 ^ (- e)) y in
  let '(m, e) := if m =? 2 ^ 53 then (2 ^ 52, e + 1) else (m, e) in
  match m with
  | Zpos p => if e <=? emax - prec
              then Ok (S754_finite s p e)
              else Raise OverflowError
  | _ => Ok (S754_zero s)
  end.

Definition py_sub (x y : pynum) : result pynum :=
  match x, y with
  | PyInt a, PyInt b => Ok (PyInt (a - b))
  | _, _ => fx ← as_float x; fy ← as_float y;
            Ok (PyFloat (SFsub prec emax fx fy))
  end.

Definition py_mul (x y : pynum) : result pynum :=
  match x, y with
  | PyInt a, PyInt b => Ok (PyInt (a * b))
  | _, _ => fx ← as_float x; fy ← as_float y;
            Ok (PyFloat (SFmul prec emax fx fy))
  end.

(** [x / y]: always a [float]. *)
Definition py_truediv (x y : pynum) : result spec_float :=
  match x, y with
  | PyInt a, PyInt b => int_truediv a b
  | _, _ => fx ← as_float x; fy ← as_float y;
            if is_zero_float fy then Raise ZeroDivisionError
            else Ok (SFdiv prec emax fx fy)
  end.

(** [int(f)] on a [float]: truncation towards zero. *)
Definition int_of_float (f : spec_float) : result Z :=
  match f with
  | S754_nan => Raise ValueError
  | S754_infinity _ => Raise OverflowError
  | S754_zero _ => Ok 0
  | S754_finite s m e =>
      let v := if 0 <=? e then Zpos m * 2 ^ e else Zpos m / 2 ^ (- e) in
      Ok (if s then - v else v)
  end.

Definition py_int (x : pynum) : result Z :=
  match x with
  | PyInt z => Ok z
  | PyFloat f => int_of_float f
  end.

(** Exact comparison of an [int] with a [float]; [None] on NaN. *)
Definition compare_int_float (z : Z) (f : spec_float) : option comparison :=
  match f with
  | S754_nan => None
  | S754_infinity s => Some (if s then Gt else Lt)
  | S754_zero _ => Some (z ?= 0)
  | S754_finite s m e =>
      let v := if s then Zneg m else Zpos m in
      Some (if 0 <=? e then z ?= v * 2 ^ e else z * 2 ^ (- e) ?= v)
  end.

Definition py_compare (x y : pynum) : option comparison :=
  match x, y with
  | PyInt a, PyInt b => Some (a ?= b)
  | PyInt a, PyFloat g => compare_int_float a g
  | PyFloat f, PyInt b => CompOpp <$> compare_int_float b f
  | PyFloat f, PyFloat g => SFcompare f g
  end.

(** [x >= y] *)
Definition py_ge (x y : pynum) : bool :=
  match py_compare x y with
  | Some Gt | Some Eq => true
  | _ => false
  end.

(** The literals [1e6] and [100e6]. *)
Definition float_1e6 : spec_float := S754_finite false 8589934592000000 (-33).
Definition float_100e6 : spec_float := S754_finite false 6710886400000000 (-26).

(** ** The serial link

    The device behind the port is any state machine: [exchange d cmd] is
    the state after [cmd] has been written and the bytes that wait in the
    input buffer when [_send_command] reads it (possibly none). *)

Record transport : Type := {
  device : Type;
  exchange : device → list byte → device * list byte
}.

(** What went over the wire: the bytes written and the bytes read back. *)
Record exchanged : Set := {
  sent : list byte;
  received : list byte
}.

Record link (T : transport) : Type := {
  dev : device T;
  wire : list exchanged
}.
Arguments dev {T} l.
Arguments wire {T} l.
Arguments Build_link {T} dev wire.

(** Frames written so far, oldest first. *)
Definition written {T} (l : link T) : list (list byte) := sent <$> wire l.

(** Computations on the link that may raise: the link survives the
    exception (frames already written stay written). *)
Definition io (T : transport) (A : Type) : Type := link T → result A * link T.

Global Instance io_ret {T} : MRet (io T) := λ A a l, (Ok a, l).
Global Instance io_bind {T} : MBind (io T) := λ A B k m l,
  match m l with
  | (Ok a, l') => k a l'
  | (Raise e, l') => (Raise e, l')
  end.

Definition lift {T A} (r : result A) : io T A := λ l, (r, l).

(** [for x in xs: body(x)] *)
Fixpoint for_each {T A} (xs : list A) (body : A → io T ()) : io T () :=
  match xs with
  | [] => mret ()
  | x :: xs' => _ ← body x; for_each xs' body
  end.

(** [range(n)] *)
Definition range (n : nat) : list Z := Z.of_nat <$> seq 0 n.

Section Protocol.
Context {T : transport}.

(** [_send_command]: write the frame, wait, read what is available. *)
Definition _send_command (command_bytes : list byte) : io T (list byte) :=
  λ l, let '(d, reply) := exchange T (dev l) command_bytes in
       (Ok reply,
        {| dev := d;
           wire := wire l ++ [{| sent := command_bytes; received := reply |}] |}).

(** [self._send_command(bytes([...]))] *)
Definition send_ints (vs : list Z) : io T (list byte) :=
  cmd ← lift (bytes_of_ints vs); _send_command cmd.

(** [NanoVNA_SAA2.clear_fifo] *)
Definition clear_fifo : io T () :=
  _ ← send_ints [0x20; 0x30; 0x00]; mret ().

(** The step of the sweep,
    [(stop_hz - start_hz) / (points - 1) if points > 1 else 0]. *)
Definition sweep_step_hz (start_hz stop_hz : pynum) (points : Z)
  : result pynum :=
  if 1 <? points
  then d ← py_sub stop_hz start_hz;
       q ← py_truediv d (PyInt (points - 1));
       Ok (PyFloat q)
  else Ok (PyInt 0).

(** [NanoVNA_SAA2.setup_sweep] of [nanovna.py].  The banner printed first
    evaluates [start_hz/1e6] and [stop_hz/1e6]; it sends nothing, and
    neither does the final [time.sleep]. *)
Definition setup_sweep (start_hz stop_hz : pynum) (points : Z) : io T () :=
  _ ← lift (py_truediv start_hz (PyFloat float_1e6));
  _ ← lift (py_truediv stop_hz (PyFloat float_1e6));
  step_hz ← lift (sweep_step_hz start_hz stop_hz points);
  start_bytes ← lift (n ← py_int start_hz; to_bytes 8 n);
  _ ← for_each (range 8) (λ i,
        v ← lift (bytes_index start_bytes i);
        _ ← send_ints [0x20; i; v]; mret ());
  step_bytes ← lift (n ← py_int step_hz; to_bytes 8 n);
  _ ← for_each (range 8) (λ i,
        v ← lift (bytes_index step_bytes i);
        _ ← send_ints [0x20; 0x10 + i; v]; mret ());
  points_bytes ← lift (to_bytes 2 points);
  b0 ← lift (bytes_index points_bytes 0);
  cmd1 ← lift (bytes_of_ints [0x20; 0x20; b0]);
  b1 ← lift (bytes_index points_bytes 1);
  cmd2 ← lift (bytes_of_ints [0x20; 0x21; b1]);
  _ ← _send_command cmd1;
  _ ← _send_command cmd2;
  values_bytes ← lift (to_bytes 2 1);
  v0 ← lift (bytes_index values_bytes 0);
  cmd1 ← lift (bytes_of_ints [0x20; 0x22; v0]);
  v1 ← lift (bytes_index values_bytes 1);
  cmd2 ← lift (bytes_of_ints [0x20; 0x23; v1]);
  _ ← _send_command cmd1;
  _ ← _send_command cmd2;
  mret ().

(** [NanoVNA_Simple.setup_sweep] of [nanovna_original.py]. *)
Definition setup_sweep_simple (start_hz stop_hz : pynum) (points : Z)
  : io T () :=
  step_hz ← lift (sweep_step_hz start_hz stop_hz points);
  start_bytes ← lift (n ← py_int start_hz; to_bytes 8 n);
  _ ← for_each (range 8) (λ i,
        v ← lift (bytes_index start_bytes i);
        _ ← send_ints [0x20; i; v]; mret ());
  step_bytes ← lift (n ← py_int step_hz; to_bytes 8 n);
  _ ← for_each (range 8) (λ i,
        v ← lift (bytes_index step_bytes i);
        _ ← send_ints [0x20; 0x10 + i; v]; mret ());
  points_bytes ← lift (to_bytes 2 points);
  b0 ← lift (bytes_index points_bytes 0);
  _ ← send_ints [0x20; 0x20; b0];
  b1 ← lift (bytes_index points_bytes 1);
  _ ← send_ints [0x20; 0x21; b1];
  _ ← send_ints [0x20; 0x22; 1];
  _ ← send_ints [0x20; 0x23; 0];
  mret ().
End Protocol.

(** ** Complex arithmetic of the decoder

    The decoder builds [complex] values from the integers of a record and
    uses [abs], [>] against the literal [1e-6], [/] and [np.angle] on them.
    These operations are taken as an interface, with the three facts of
    the language the decoder relies on: a complex division raises
    ([ZeroDivisionError]) only on a zero divisor, the modulus of zero is
    not above [1e-6], and [complex(0, 0)] is zero. *)

Class PyComplex : Type := {
  pyfloat : Type;
  pycomplex : Type;
  (** the type of the results of [np.angle] *)
  np_float64 : Type;
  (** [complex(re, im)] on two [int]s *)
  complex_of_ints : Z → Z → pycomplex;
  (** [abs(z)] *)
  complex_abs : pycomplex → pyfloat;
  (** [x > 1e-6] *)
  above_1e_6 : pyfloat → bool;
  (** [w == 0] *)
  complex_is_zero : pycomplex → bool;
  (** [z / w] *)
  complex_div : pycomplex → pycomplex → result pycomplex;
  (** [np.angle(z)] *)
  np_angle : pycomplex → np_float64;
  complex_div_nonzero z w :
    complex_is_zero w = false → ∃ q, complex_div z w = Ok q;
  complex_abs_zero w :
    complex_is_zero w = true → above_1e_6 (complex_abs w) = false;
  complex_of_ints_zero : complex_is_zero (complex_of_ints 0 0) = true
}.

(** [range(0, stop, 32)] *)
Definition chunk_offsets (stop : nat) : list nat :=
  (λ k, 32 * k)%nat <$> seq 0 ((stop + 31) / 32).

(** [xs[:n]] for an [int] bound [n]: a negative bound counts from the end. *)
Definition py_take {A} (n : Z) (xs : list A) : list A :=
  if 0 <=? n then take (Z.to_nat n) xs
  else take (length xs - Z.to_nat (- n)) xs.

(** [np.linspace(start, stop, num)] with its default [endpoint=True], on
    exact rationals: [num] evenly spaced samples over [[start, stop]], the
    last one being [stop] itself. *)
Definition linspace (start stop : Q) (num : nat) : list Q :=
  match num with
  | O => []
  | S O => [start]
  | S (S n) =>
      let step := ((stop - start) / inject_Z (Z.of_nat (S n)))%Q in
      ((λ i, inject_Z (Z.of_nat i) * step + start)%Q <$> seq 0 (S n)) ++ [stop]
  end.

Section Decoder.
Context {ops : PyComplex}.

(** The [dict] returned by [NanoVNA_SAA2._parse_fifo_data]. *)
Record point : Type := {
  freq_index : Z;
  s11 : pycomplex;
  s21 : pycomplex;
  s11_magnitude : pyfloat;
  s11_phase : np_float64;
  s21_magnitude : pyfloat;
  s21_phase : np_float64;
  raw_reference : pyfloat
}.

(** The [dict] returned by [NanoVNA_Simple._parse_data]. *)
Record measurement : Type := {
  m_s11 : pycomplex;
  m_magnitude : pyfloat;
  m_phase : np_float64
}.

(** The [try] block of [_parse_fifo_data]. *)
Definition parse_fifo_body (fifo_data : list byte) : result (option point) :=
  if negb (length fifo_data =? 32)%nat then Ok None else
  fwd0_re ← unpack_i32 (slice fifo_data 0 4);
  fwd0_im ← unpack_i32 (slice fifo_data 4 8);
  rev0_re ← unpack_i32 (slice fifo_data 8 12);
  rev0_im ← unpack_i32 (slice fifo_data 12 16);
  rev1_re ← unpack_i32 (slice fifo_data 16 20);
  rev1_im ← unpack_i32 (slice fifo_data 20 24);
  freq_index ← unpack_u16 (slice fifo_data 24 26);
  let reference := complex_of_ints fwd0_re fwd0_im in
  let s11_raw := complex_of_ints rev0_re rev0_im in
  let s21_raw := complex_of_ints rev1_re rev1_im in
  '(s11, s21) ←
    (if above_1e_6 (complex_abs reference)
     then s11 ← complex_div s11_raw reference;
          s21 ← complex_div s21_raw reference;
          Ok (s11, s21)
     else Ok (complex_of_ints 0 0, complex_of_ints 0 0));
  Ok (Some {| freq_index := freq_index;
              s11 := s11;
              s21 := s21;
              s11_magnitude := complex_abs s11;
              s11_phase := np_angle s11;
              s21_magnitude := complex_abs s21;
              s21_phase := np_angle s21;
              raw_reference := complex_abs reference |}).

(** [NanoVNA_SAA2._parse_fifo_data]: any exception of the body is caught
    and turned into [None]. *)
Definition _parse_fifo_data (fifo_data : list byte) : option point :=
  match parse_fifo_body fifo_data with
  | Ok r => r
  | Raise _ => None
  end.

(** The [try] block of [NanoVNA_Simple._parse_data]. *)
Definition parse_data_body (data : list byte) : result measurement :=
  fwd0_re ← unpack_i32 (slice data 0 4);
  fwd0_im ← unpack_i32 (slice data 4 8);
  rev0_re ← unpack_i32 (slice data 8 12);
  rev0_im ← unpack_i32 (slice data 12 16);
  let reference := complex_of_ints fwd0_re fwd0_im in
  let s11_raw := complex_of_ints rev0_re rev0_im in
  s11 ← (if above_1e_6 (complex_abs reference)
         then complex_div s11_raw reference
         else Ok (complex_of_ints 0 0));
  Ok {| m_s11 := s11;
        m_magnitude := complex_abs s11;
        m_phase := np_angle s11 |}.

(** [NanoVNA_Simple._parse_data] *)
Definition _parse_data (data : list byte) : option measurement :=
  match parse_data_body data with
  | Ok r => Some r
  | Raise _ => None
  end.

(** The decoding loop shared by [capture_data_smart] and [capture_data]:
    [for i in range(0, len(data), 32)], keeping the chunks of 32 bytes
    whose parse is truthy (a returned [dict] is never empty). *)
Definition decode_with {A} (parse : list byte → option A) (data : list byte)
  : list A :=
  foldl (λ acc i,
           let chunk := slice data i (i + 32) in
           if (length chunk =? 32)%nat
           then match parse chunk with
                | Some p => acc ++ [p]
                | None => acc
                end
           else acc)
        [] (chunk_offsets (length data)).

Definition decode_points : list byte → list point :=
  decode_with _parse_fifo_data.

Definition decode_measurements : list byte → list measurement :=
  decode_with _parse_data.

(** The frequency axis of [capture_data_smart]: the sweep bounds are the
    literals [1e6] and [100e6] of the source. *)
Definition capture_frequencies {A} (data_points : list A) : list Q :=
  match data_points with
  | [] => []
  | _ => linspace (inject_Z 1000000) (inject_Z 100000000) (length data_points)
  end.


Context {T : transport}.

(** The frame of [READFIFO] for [block_size] bytes at address [0x30]. *)
Definition readfifo_cmd (block_size : Z) : list Z :=
  [0x18; 0x30; Z.land block_size 0xFF; Z.land (Z.shiftr block_size 8) 0xFF].

(** The polling loop of [capture_data_smart], with [attempts] iterations
    left: [for attempt in range(5)] is [read_blocks 5]. *)
Fixpoint read_blocks (attempts : nat) (expected_points : Z)
    (all_data : list byte) : io T (list byte) :=
  match attempts with
  | O => mret all_data
  | S n =>
      block_data ← send_ints (readfifo_cmd 256);
      match block_data with
      | _ :: _ =>
          let all_data := all_data ++ block_data in
          if Z.of_nat (length all_data) >=? expected_points * 32
          then mret all_data
          else read_blocks n expected_points all_data
      | [] => read_blocks n expected_points all_data
      end
  end.

(** The acquisition part of [capture_data_smart]: clear the buffer, then
    poll it. *)
Definition capture_bytes (expected_points : Z) : io T (list byte) :=
  _ ← clear_fifo;
  read_blocks 5 expected_points [].

(** [NanoVNA_SAA2.capture_data_smart] *)
Definition capture_data_smart (expected_points : Z)
  : io T (list Q * list point) :=
  all_data ← capture_bytes expected_points;
  let data_points := decode_points all_data in
  let data_points := py_take expected_points data_points in
  mret (capture_frequencies data_points, data_points).

(** [NanoVNA_Simple.capture_data] *)
Definition capture_data (points : Z) : io T (list measurement) :=
  _ ← send_ints [0x20; 0x30; 0x00];
  data ← send_ints [0x18; 0x30; 0x00; 0x04];
  mret (py_take points (decode_measurements data)).

(** One pass through option 1 of the menu of [nanovna_original.main],
    after the three inputs have been read: [None] when the request is
    refused ([continue]), otherwise the measurements that were
    captured. *)
Definition measure_once (start_mhz stop_mhz : pynum) (points : Z)
  : io T (option (list measurement)) :=
  if py_ge start_mhz stop_mhz then mret None
  else if (points <? 2) || (1001 <? points) then mret None
  else
    start_hz ← lift (py_mul start_mhz (PyFloat float_1e6));
    stop_hz ← lift (py_mul stop_mhz (PyFloat float_1e6));
    _ ← setup_sweep_simple start_hz stop_hz points;
    measurements ← capture_data points;
    mret (Some measurements).
End Decoder.

(** ** S-parameter bookkeeping of [s2p_extraction.py] *)

Section SParams.
(** Frequencies and complex samples as read from the CSV file; [czero]
    is the complex zero of [np.zeros]. *)
Context {F C : Type} (czero : C).

(** The two attributes of [VNAMeasurement] that the export uses. *)
Record vna_measurement : Type := {
  frequencies : option (list F);
  s_params : gmap string (list C)
}.

(** [VNAMeasurement.__init__] *)
Definition vna_init : vna_measurement :=
  {| frequencies := None; s_params := ∅ |}.

(** The end of [_process_measurement_data]: the three columns of the
    data frame ([freq], [s11], [s21], one entry per row) are stored. *)
Definition store_measurement (rows : list (F * C * C)) : vna_measurement :=
  let s11 := (λ r, r.1.2) <$> rows in
  let s21 := (λ r, r.2) <$> rows in
  let freqs := (λ r, r.1.1) <$> rows in
  {| frequencies := Some freqs;
     s_params := <["S22" := s11]> (<["S12" := s21]>
                 (<["S21" := s21]> (<["S11" := s11]> ∅))) |}.

(** [self.s_params[key]] *)
Definition s_param (self : vna_measurement) (key : string)
  : result (list C) :=
  match s_params self !! key with
  | Some v => Ok v
  | None => Raise KeyError
  end.

(** A 2x2 matrix per frequency, rows first. *)
Definition s_matrix : Type := list (list (list C)).

(** [np.zeros((n, 2, 2), dtype=complex)] *)
Definition zeros (n : nat) : s_matrix :=
  replicate n (replicate 2 (replicate 2 czero)).

(** [m[:, i, j] = v]: [v] must have one entry per frequency, or a single
    entry that is broadcast. *)
Definition assign_column (m : s_matrix) (i j : nat) (v : list C)
  : result s_matrix :=
  let set (x : C) (blk : list (list C)) : list (list C) :=
    alter (λ row, <[j := x]> row) i blk in
  if (length v =? length m)%nat
  then Ok (zip_with set v m)
  else match v with
       | [x] => Ok (set x <$> m)
       | _ => Raise ValueError
       end.

(** The matrix that [save_s2p_file] hands to the Touchstone writer;
    [None] when the method returns [False] before building it. *)
Definition save_s2p_matrix (self : vna_measurement)
  : result (option s_matrix) :=
  if bool_decide (s_params self = ∅) then Ok None else
  s11 ← s_param self "S11";
  if (length s11 =? 0)%nat then Ok None else
  match frequencies self with
  | None => Ok None
  | Some freqs =>
      let built :=
        m ← Ok (zeros (length freqs));
        v ← s_param self "S11"; m ← assign_column m 0 0 v;
        v ← s_param self "S21"; m ← assign_column m 1 0 v;
        v ← s_param self "S12"; m ← assign_column m 0 1 v;
        v ← s_param self "S22"; m ← assign_column m 1 1 v;
        Ok m in
      match built with
      | Ok m => Ok (Some m)
      | Raise _ => Ok None
      end
  end.

(** [m[k, i, j]] *)
Definition entry (m : list (list (list C))) (k i j : nat) : option C :=
  blk ← m !! k; row ← blk !! i; row !! j.
End SParams.

(** ** A binary64 implementation of the complex interface

    Complex numbers as pairs of binary64 values, with the quotient computed
    the way the reference interpreter does (scaling by the larger component
    of the divisor).  The modulus is the rounded square root of the sum of
    squares; the standard library has no arctangent, so a phase is kept as
    the complex number whose argument it is. *)

Module IEEE.
Definition fadd := SFadd prec emax.
Definition fsub := SFsub prec emax.
Definition fmul := SFmul prec emax.
Definition fdiv := SFdiv prec emax.

Definition of_int (z : Z) : spec_float := binary_normalize prec emax z 0 false.

(** The literal [1e-6]. *)
Definition eps : spec_float := fdiv (of_int 1) (of_int 1000000).

Definition complex : Type := spec_float * spec_float.

Definition of_ints (re im : Z) : complex := (of_int re, of_int im).

Definition cabs (z : complex) : spec_float :=
  SFsqrt prec emax (fadd (fmul z.1 z.1) (fmul z.2 z.2)).

Definition is_zero (z : complex) : bool :=
  is_zero_float z.1 && is_zero_float z.2.

Definition quot (a b : complex) : result complex :=
  let abs_breal := SFabs b.1 in
  let abs_bimag := SFabs b.2 in
  if SFleb abs_bimag abs_breal then
    if is_zero_float abs_breal then Raise ZeroDivisionError
    else
      let ratio := fdiv b.2 b.1 in
      let denom := fadd b.1 (fmul b.2 ratio) in
      Ok (fdiv (fadd a.1 (fmul a.2 ratio)) denom,
          fdiv (fsub a.2 (fmul a.1 ratio)) denom)
  else if SFleb abs_breal abs_bimag then
    let ratio := fdiv b.1 b.2 in
    let denom := fadd (fmul b.1 ratio) b.2 in
    Ok (fdiv (fadd (fmul a.1 ratio) a.2) denom,
        fdiv (fsub (fmul a.2 ratio) a.1) denom)
  else Ok (S754_nan, S754_nan).
End IEEE.

(** [int_truediv] against the division of the IEEE specification: on operands
    that are exact doubles it is [SFdiv] of the converted operands, and on
    any operands it is the rounding of the exact quotient computed by
    [SFdiv_core_binary]. *)
Definition ieee_int_truediv (a b : Z) : spec_float :=
  let '(q, e, l) := SFdiv_core_binary prec emax (Z.abs a) 0 (Z.abs b) 0 in
  binary_round_aux prec emax (xorb (a <? 0) (b <? 0)) q e l.

(** ** Sweep frames as the register map describes them *)

(** The WRITE frame [[0x20, addr, value]]. *)
Definition write_frame (addr value : Z) : list byte :=
  [x20; byte_of_Z addr; byte_of_Z value].

(** An [n]-byte register at [base]: one WRITE frame per byte at consecutive
    addresses, least-significant byte first. *)
Definition register_writes (base : Z) (n : nat) (x : Z) : list (list byte) :=
  (λ i, write_frame (base + Z.of_nat i) (x / 256 ^ Z.of_nat i mod 256))
    <$> seq 0 n.

(** The frames of a sweep: start at [0x00], step at [0x10], points at
    [0x20], values per frequency (the constant 1) at [0x22]. *)
Definition sweep_frames (start_hz step_hz points : Z) : list (list byte) :=
  register_writes 0x00 8 start_hz ++ register_writes 0x10 8 step_hz ++
  register_writes 0x20 2 points ++ register_writes 0x22 2 1.

(** The link after the frames [cmds] have been sent one by one. *)
Fixpoint after {T} (cmds : list (list byte)) (l : link T) : link T :=
  match cmds with
  | [] => l
  | cmd :: cmds' => after cmds' (snd (_send_command cmd l))
  end.

(** ** Record fields as the record layout describes them *)

(** The byte at offset [i] of a record. *)
Definition byte_at (b : list byte) (i : nat) : Z :=
  from_option Z_of_byte 0 (b !! i).

(** The little-endian unsigned integer on the [n] bytes at offset [off]. *)
Fixpoint uint_at (b : list byte) (off n : nat) : Z :=
  match n with
  | O => 0
  | S n' => byte_at b off + 256 * uint_at b (S off) n'
  end.

(** The little-endian signed 32-bit integer at offset [off]. *)
Definition int32_at (b : list byte) (off : nat) : Z :=
  let u := uint_at b off 4 in
  if u <? 2 ^ 31 then u else u - 2 ^ 32.

(** The little-endian unsigned 16-bit integer at offset [off]. *)
Definition uint16_at (b : list byte) (off : nat) : Z := uint_at b off 2.

(** The [k]-th chunk of 32 bytes of a buffer. *)
Definition chunk (data : list byte) (k : nat) : list byte :=
  take 32 (drop (32 * k) data).

(** The complete chunks of a buffer, in order; trailing bytes that do not
    fill a chunk are not part of any. *)
Definition complete_chunks (data : list byte) : list (list byte) :=
  chunk data <$> seq 0 (length data / 32).

(** The calibration of [_parse_fifo_data]: the two raw values divided by
    the reference when its modulus is above [1e-6], zeros otherwise. *)
Definition calibrated {ops : PyComplex} (reference s11_raw s21_raw : pycomplex)
  : result (pycomplex * pycomplex) :=
  if above_1e_6 (complex_abs reference)
  then s11 ← complex_div s11_raw reference;
       s21 ← complex_div s21_raw reference;
       Ok (s11, s21)
  else Ok (complex_of_ints 0 0, complex_of_ints 0 0).

(** Two records for running the decoder: the first has the forward
    reference [3+4i], the raw values [-6+8i] and [5i] and the frequency
    index 7; the second has a zero reference and the same raw values. *)
Definition record_3_4 : list byte :=
  le_digits 4 3 ++ le_digits 4 4 ++ le_digits 4 (2 ^ 32 - 6) ++ le_digits 4 8 ++
  le_digits 4 0 ++ le_digits 4 5 ++ le_digits 2 7 ++ le_digits 6 0.

Definition record_zero_reference : list byte :=
  le_digits 4 0 ++ le_digits 4 0 ++ le_digits 4 (2 ^ 32 - 6) ++ le_digits 4 8 ++
  le_digits 4 0 ++ le_digits 4 5 ++ le_digits 2 7 ++ le_digits 6 0.

(** The READFIFO frame of the polling loop: 256 bytes from address [0x30],
    the length little-endian. *)
Definition readfifo_256 : list byte := [x18; x30; x00; x01].

(** The bytes received in a sequence of exchanges, concatenated. *)
Definition received_bytes (reads : list exchanged) : list byte :=
  concat (received <$> reads).


(** A device that never answers: every read finds the input buffer empty. *)
Definition silent : transport :=
  {| device := (); exchange := λ d _, (d, []) |}.

(** A freshly opened link to the silent device. *)
Definition idle : link silent := Build_link (T:=silent) () [].

(** ** The outcome of a sweep programming, as a function of its arguments *)

(** [x] fits in [n] bytes: the condition under which [x.to_bytes(n, ...)]
    does not raise. *)
Definition fits (n : nat) (x : Z) : bool := (0 <=? x) && (x <? 256 ^ Z.of_nat n).

(** The two quotients that the banner of [NanoVNA_SAA2.setup_sweep]
    formats. *)
Definition banner (start_hz stop_hz : pynum) : result () :=
  _ ← py_truediv start_hz (PyFloat float_1e6);
  _ ← py_truediv stop_hz (PyFloat float_1e6);
  Ok ().

(** What a [setup_sweep] method returns and the frames it has written by
    then: the registers are programmed one after the other, and the first
    value that cannot be converted or encoded stops the method. *)
Definition sweep_outcome (start_hz stop_hz : pynum) (points : Z)
  : result () * list (list byte) :=
  match sweep_step_hz start_hz stop_hz points with
  | Raise e => (Raise e, [])
  | Ok step_hz =>
  match py_int start_hz with
  | Raise e => (Raise e, [])
  | Ok start =>
  if negb (fits 8 start) then (Raise OverflowError, []) else
  let frames1 := register_writes 0x00 8 start in
  match py_int step_hz with
  | Raise e => (Raise e, frames1)
  | Ok step =>
  if negb (fits 8 step) then (Raise OverflowError, frames1) else
  let frames2 := frames1 ++ register_writes 0x10 8 step in
  if negb (fits 2 points) then (Raise OverflowError, frames2) else
  (Ok (), frames2 ++ register_writes 0x20 2 points ++ register_writes 0x22 2 1)
  end end end.

(** The address and the value of a WRITE frame. *)
Definition frame_fields (frame : list byte) : option (Z * Z) :=
  match frame with
  | [c; a; v] => if Byte.eqb c x20 then Some (Z_of_byte a, Z_of_byte v) else None
  | _ => None
  end.

(** The register addresses written by a sequence of frames, and the integer
    that their values spell, least-significant byte first. *)
Definition frame_addresses (frames : list (list byte)) : list Z :=
  omap (λ f, fst <$> frame_fields f) frames.

Definition frames_value (frames : list (list byte)) : Z :=
  le_value (omap (λ f, byte_of_Z ∘ snd <$> frame_fields f) frames).

(** ** A record as the device lays it out *)

(** Six 32-bit two's-complement integers, the 16-bit frequency index and
    the reserved bytes, all little-endian. *)
Definition encode_record (fwd_re fwd_im rev0_re rev0_im rev1_re rev1_im : Z)
    (index : Z) (reserved : list byte) : list byte :=
  le_digits 4 (fwd_re mod 2 ^ 32) ++ le_digits 4 (fwd_im mod 2 ^ 32) ++
  le_digits 4 (rev0_re mod 2 ^ 32) ++ le_digits 4 (rev0_im mod 2 ^ 32) ++
  le_digits 4 (rev1_re mod 2 ^ 32) ++ le_digits 4 (rev1_im mod 2 ^ 32) ++
  le_digits 2 index ++ reserved.

(** ** Devices with a fixed answer *)

(** A device that answers every frame with the same bytes, and a freshly
    opened link to it. *)
Definition steady (reply : list byte) : transport :=
  {| device := (); exchange := λ d _, (d, reply) |}.

Definition fresh (reply : list byte) : link (steady reply) :=
  Build_link (T:=steady reply) () [].

(** ** One pass through the menu of [nanovna.main] *)

Section Menus.
Context {ops : PyComplex} {T : transport}.

(** Option 1, up to the choice of the plot: the sweep is programmed with
    the literals of the source and the capture follows. *)
Definition main_option_1 : io T (list Q * list point) :=
  _ ← setup_sweep (PyFloat float_1e6) (PyFloat float_100e6) 11;
  capture_data_smart 11.
End Menus.

(** Minus infinity. *)
Definition is_infinity_neg (f : spec_float) : bool :=
  match f with S754_infinity true => true | _ => false end.

(** ** A session of [s2p_extraction.main] *)

(** [s.endswith(suffix)] *)
Fixpoint endswith (s suffix : string) : bool :=
  String.eqb s suffix ||
  match s with
  | EmptyString => false
  | String _ s' => endswith s' suffix
  end.

(** [if not filename.endswith(ext): filename += ext] *)
Definition ensure_extension (ext filename : string) : string :=
  if endswith filename ext then filename else filename +:+ ext.

Section Session.
Context {F C : Type} (czero : C).




(** The matrix of the network that [plot_smith_chart] draws; [None] when
    the method returns before building it or its handler catches an
    exception. *)
Definition plot_smith_chart (self : vna_measurement (F:=F) (C:=C))
  : result (option (s_matrix (C:=C))) :=
  if bool_decide (s_params self = ∅) then Ok None else
  s11 ← s_param self "S11";
  if (length s11 =? 0)%nat then Ok None else
  match frequencies self with
  | None => Ok None
  | Some freqs =>
      let built :=
        m ← Ok (zeros czero (length freqs));
        v ← s_param self "S11"; m ← assign_column m 0 0 v;
        v ← s_param self "S22"; m ← assign_column m 1 1 v;
        Ok m in
      match built with
      | Ok m => Ok (Some m)
      | Raise _ => Ok None
      end
  end.




End Session.

(** * Properties *)

(** ** Bytes and little-endian encoding *)

Lemma Z_of_byte_of_Z z : Z_of_byte (byte_of_Z z) = z mod 256.
Proof.
  unfold Z_of_byte, byte_of_Z.
  assert (Hr : 0 <= z mod 256 < 256) by (apply Z.mod_pos_bound; lia).
  destruct (Byte.of_N (Z.to_N (z mod 256))) as [b|] eqn:Hb.
  - apply Byte.to_of_N in Hb. rewrite Hb. lia.
  - apply Byte.of_N_None_iff in Hb. lia.
Qed.

Lemma Z_of_byte_range b : 0 <= Z_of_byte b < 256.
Proof. unfold Z_of_byte. pose proof (Byte.to_N_bounded b). lia. Qed.

Lemma byte_of_Z_of_byte b : byte_of_Z (Z_of_byte b) = b.
Proof.
  unfold byte_of_Z. pose proof (Z_of_byte_range b).
  rewrite Z.mod_small by lia. unfold Z_of_byte. rewrite N2Z.id, Byte.of_to_N. done.
Qed.

(** Rounding to nearest, then truncating: below [2^53] nothing is lost. *)
Lemma round_trunc_exact a b s m' :
  0 <= a < 2 ^ 53 → 0 < b → 0 <= s →
  2 ^ 52 * b <= a * 2 ^ s →
  (m' = a * 2 ^ s / b ∨ (m' = a * 2 ^ s / b + 1 ∧ b <= 2 * (a * 2 ^ s mod b))) →
  m' / 2 ^ s = a / b.
Proof.
  intros Ha Hb Hs Hnorm Hm'.
  assert (Hp : 0 < 2 ^ s) by (apply Z.pow_pos_nonneg; lia).
  set (P := 2 ^ s) in *.
  pose proof (Z.div_mod a b ltac:(lia)) as Hab.
  pose proof (Z.mod_pos_bound a b Hb) as Ht.
  pose proof (Z.div_mod (a * P) b ltac:(lia)) as HN.
  pose proof (Z.mod_pos_bound (a * P) b Hb) as Hr.
  set (q := a / b) in *. set (t := a mod b) in *.
  set (m := a * P / b) in *. set (r := (a * P) mod b) in *.
  assert (Hlo : q * P <= m) by nia.
  assert (Hhi : m < (q + 1) * P) by nia.
  symmetry. apply Z.div_unique with (r := m' - q * P); [|lia].
  left. destruct Hm' as [-> | [-> Hup]]; [lia|].
  split; [lia|].
  destruct (Z.eq_dec (m + 1) ((q + 1) * P)) as [Heq|]; [|lia].
  exfalso.
  assert (2 * P <= b) by nia.
  change (2 ^ 52) with 4503599627370496 in *.
  change (2 ^ 53) with 9007199254740992 in *.
  nia.
Qed.

Lemma quot_exponent_spec x y :
  0 < x → 0 < y →
  let k := quot_exponent x y in
  Z.log2 x - Z.log2 y - 1 <= k <= Z.log2 x - Z.log2 y ∧
  (0 <= k → y * 2 ^ k <= x) ∧
  (k < 0 → y <= x * 2 ^ (- k)).
Proof.
  intros Hx Hy. unfold quot_exponent.
  destruct (Z.log2_spec x Hx) as [Hx1 Hx2], (Z.log2_spec y Hy) as [Hy1 Hy2].
  pose proof (Z.log2_nonneg x) as Hlx. pose proof (Z.log2_nonneg y) as Hly.
  generalize dependent (Z.log2 y). generalize dependent (Z.log2 x).
  intros lx Hx1 Hx2 Hlx ly Hy1 Hy2 Hly.
  remember (lx - ly) as d eqn:Ed.
  destruct (0 <=? d) eqn:Hd.
  - apply Z.leb_le in Hd.
    destruct (y * 2 ^ d <=? x) eqn:Ht.
    + apply Z.leb_le in Ht. cbn zeta. repeat split; try lia.
    + apply Z.leb_gt in Ht. cbn zeta. split; [lia|]. split.
      * intros Hk.
        assert (2 ^ Z.succ ly * 2 ^ (d - 1) = 2 ^ lx) as Hpow.
        { rewrite <- Z.pow_add_r by lia. f_equal. lia. }
        assert (0 < 2 ^ (d - 1)) by (apply Z.pow_pos_nonneg; lia).
        transitivity (2 ^ lx); [|lia].
        rewrite <- Hpow. apply Z.mul_le_mono_nonneg_r; lia.
      * intros Hk. assert (d = 0) as -> by lia.
        change (- (0 - 1)) with 1. rewrite Z.pow_1_r.
        assert (lx = ly) as Hl by lia. rewrite Hl in *.
        rewrite Z.pow_succ_r in Hy2 by lia. lia.
  - apply Z.leb_gt in Hd.
    destruct (y <=? x * 2 ^ (- d)) eqn:Ht.
    + apply Z.leb_le in Ht. cbn zeta. repeat split; try lia.
    + apply Z.leb_gt in Ht. cbn zeta. repeat split; try lia.
      intros _.
      assert (2 ^ lx * 2 ^ (- (d - 1)) = 2 ^ Z.succ ly) as Hpow.
      { rewrite <- Z.pow_add_r by lia. f_equal. lia. }
      assert (0 < 2 ^ (- (d - 1))) by (apply Z.pow_pos_nonneg; lia).
      transitivity (2 ^ Z.succ ly); [lia|].
      rewrite <- Hpow. apply Z.mul_le_mono_nonneg_r; lia.
Qed.

Lemma round_half_even_cases num den :
  let m' := round_half_even num den in
  m' = num / den ∨ (m' = num / den + 1 ∧ den <= 2 * (num mod den)).
Proof.
  unfold round_half_even.
  destruct (2 * (num mod den) ?= den) eqn:Hc.
  - apply Z.compare_eq in Hc. destruct (Z.even _); [left|right]; lia.
  - left; lia.
  - apply Z.compare_gt_iff in Hc. right; lia.
Qed.

Lemma int_truediv_exact a b :
  0 <= a < 2 ^ 53 → 0 < b < 2 ^ 64 →
  ∃ f, int_truediv a b = Ok f ∧ int_of_float f = Ok (a / b).
Proof.
  intros Ha Hb. unfold int_truediv.
  destruct (b =? 0) eqn:Hb0; [lia|].
  replace (a <? 0) with false by lia. replace (b <? 0) with false by lia.
  rewrite (Z.abs_eq a), (Z.abs_eq b) by lia. cbn [xorb].
  destruct (a =? 0) eqn:Ha0.
  { apply Z.eqb_eq in Ha0; subst a. eexists; split; [done|]. done. }
  apply Z.eqb_neq in Ha0.
  destruct (quot_exponent_spec a b ltac:(lia) ltac:(lia)) as (Hk & Hk1 & Hk2).
  cbv zeta in Hk, Hk1, Hk2.
  assert (Z.log2 a <= 52) as Hla.
  { apply Z.lt_succ_r, Z.log2_lt_pow2; lia. }
  assert (Z.log2 b <= 63) as Hlb.
  { apply Z.lt_succ_r, Z.log2_lt_pow2; lia. }
  pose proof (Z.log2_nonneg a) as Hla0. pose proof (Z.log2_nonneg b) as Hlb0.
  generalize dependent (quot_exponent a b). intros k Hk Hk1 Hk2.
  rewrite Z.max_l by lia.
  destruct (0 <=? k - 52) eqn:He.
  - (* the quotient is at least [2^52]: the divisor is one *)
    apply Z.leb_le in He. assert (k = 52) as -> by lia.
    specialize (Hk1 ltac:(lia)).
    change (2 ^ 52) with 4503599627370496 in Hk1.
    change (2 ^ 53) with 9007199254740992 in Ha.
    assert (b = 1) as -> by lia.
    change (1 * 2 ^ (52 - 52)) with 1.
    unfold round_half_even. rewrite Z.div_1_r, Z.mod_1_r.
    change (2 * 0 ?= 1) with Lt. cbv iota.
    replace (a =? 2 ^ 53) with false by (change (2 ^ 53) with 9007199254740992; lia).
    destruct a as [|p|p]; try lia.
    eexists; split; [done|]. unfold int_of_float.
    change (0 <=? 52 - 52) with true. cbv iota.
    change (2 ^ (52 - 52)) with 1. by rewrite Z.mul_1_r.
  - apply Z.leb_gt in He.
    set (s := - (k - 52)). assert (0 < s) as Hs by lia.
    assert (0 < 2 ^ s) as Hp by (apply Z.pow_pos_nonneg; lia).
    assert (2 ^ 52 * b <= a * 2 ^ s) as Hnorm.
    { destruct (Z.le_gt_cases 0 k) as [Hk0|Hk0].
      - specialize (Hk1 Hk0).
        replace (2 ^ 52) with (2 ^ s * 2 ^ k)
          by (rewrite <- Z.pow_add_r by lia; f_equal; lia).
        nia.
      - specialize (Hk2 Hk0).
        replace (2 ^ s) with (2 ^ (- k) * 2 ^ 52)
          by (rewrite <- Z.pow_add_r by lia; f_equal; lia).
        assert (0 < 2 ^ 52) by done. nia. }
    pose proof (round_half_even_cases (a * 2 ^ s) b) as Hcases. cbv zeta in Hcases.
    pose proof (round_trunc_exact a b s _ Ha ltac:(lia) ltac:(lia) Hnorm Hcases) as Hq.
    assert (2 ^ 52 <= round_half_even (a * 2 ^ s) b) as Hm.
    { assert (2 ^ 52 <= a * 2 ^ s / b) by (apply Z.div_le_lower_bound; lia).
      destruct Hcases as [-> | [-> _]]; lia. }
    generalize dependent (round_half_even (a * 2 ^ s) b). intros m' _ Hq Hm.
    destruct (m' =? 2 ^ 53) eqn:Hm53.
    + apply Z.eqb_eq in Hm53. subst m'.
      change (2 ^ 52) with (Z.pos 4503599627370496).
      replace (k - 52 + 1 <=? emax - prec) with true by (unfold emax, prec; lia).
      eexists; split; [done|]. cbn [int_of_float]. f_equal. rewrite <- Hq.
      destruct (0 <=? k - 52 + 1) eqn:He1.
      * assert (s = 1) as -> by lia. replace (k - 52 + 1) with 0 by lia. done.
      * apply Z.leb_gt in He1.
        replace (- (k - 52 + 1)) with (s - 1) by lia.
        replace s with (Z.succ (s - 1)) at 2 by lia.
        rewrite Z.pow_succ_r by lia.
        change (2 ^ 53) with (2 * Z.pos 4503599627370496).
        rewrite Z.div_mul_cancel_l; [done|  |lia].
        apply Z.pow_nonzero; lia.
    + destruct m' as [|p|p]; [change (2 ^ 52) with 4503599627370496 in Hm; lia| |lia].
      replace (k - 52 <=? emax - prec) with true by (unfold emax, prec; lia).
      eexists; split; [done|]. cbn [int_of_float].
      replace (0 <=? k - 52) with false by lia. f_equal. exact Hq.
Qed.

(** [float_of_int] overflows exactly where the rounding to nearest does. *)
Example float_of_int_overflow :
  float_of_int (2 ^ 1024 - 2 ^ 970 - 1)
    = Ok (S754_finite false (2 ^ 53 - 1) 971) ∧
  binary_normalize prec emax (2 ^ 1024 - 2 ^ 970) 0 false = S754_infinity false ∧
  float_of_int (2 ^ 1024 - 2 ^ 970) = Raise OverflowError ∧
  float_of_int (2 ^ 53 + 1) = Ok (S754_finite false (2 ^ 52) 1).
Proof. vm_compute. done. Qed.

(** [int_truediv] agrees with the IEEE division on a range of operands,
    subnormal and overflowing quotients included. *)
Example int_truediv_is_ieee :
  Forall (λ '(a, b), int_truediv a b = Ok (ieee_int_truediv a b))
    [(99000000, 10); (1, 3); (2, 3); (-7, 3); (7, -3); (7, 2 ^ 60);
     (2 ^ 53 + 1, 1); (2 ^ 53 + 3, 1); (2 ^ 54 + 2, 1); (2 ^ 54 + 6, 1);
     (2 ^ 64 - 1, 3); (2 ^ 53 - 1, 2 ^ 53); (2 ^ 54 - 1, 2 ^ 54);
     (123456789123456789123456789, 987654321);
     (1, 2 ^ 1022); (3, 2 ^ 1023); (1, 2 ^ 1074); (3, 2 ^ 1075)] ∧
  int_truediv 99000000 10
    = Ok (SFdiv prec emax (IEEE.of_int 99000000) (IEEE.of_int 10)) ∧
  int_truediv 1 (2 ^ 1075) = Ok (S754_zero false) ∧
  int_truediv (2 ^ 1024) 1 = Raise OverflowError ∧
  int_truediv 1 0 = Raise ZeroDivisionError.
Proof. split; [repeat constructor|]. vm_compute. done. Qed.

Lemma le_digits_length n x : length (le_digits n x) = n.
Proof. revert x; induction n as [|n IH]; intros x; cbn; [done|by rewrite IH]. Qed.

Lemma le_digits_lookup n x i :
  (i < n)%nat →
  le_digits n x !! i = Some (byte_of_Z (x / 256 ^ Z.of_nat i)).
Proof.
  revert x i; induction n as [|n IH]; intros x i Hi; [lia|].
  destruct i as [|i]; cbn [le_digits lookup list_lookup].
  - by rewrite Z.div_1_r.
  - rewrite IH by lia. do 2 f_equal.
    rewrite Nat2Z.inj_succ, Z.pow_succ_r by lia.
    rewrite Z.div_div by lia. done.
Qed.

Lemma bytes_index_le_digits n x i :
  (i < n)%nat →
  bytes_index (le_digits n x) (Z.of_nat i) = Ok (x / 256 ^ Z.of_nat i mod 256).
Proof.
  intros Hi. unfold bytes_index. rewrite le_digits_length.
  replace (Z.of_nat i <? 0) with false by lia.
  replace ((0 <=? Z.of_nat i) && (Z.of_nat i <? Z.of_nat n)) with true by lia.
  rewrite Nat2Z.id, le_digits_lookup by done.
  by rewrite Z_of_byte_of_Z.
Qed.

Lemma le_value_le_digits n x :
  0 <= x < 256 ^ Z.of_nat n → le_value (le_digits n x) = x.
Proof.
  revert x; induction n as [|n IH]; intros x Hx.
  - cbn in *. lia.
  - cbn [le_digits le_value]. rewrite Z_of_byte_of_Z.
    rewrite Nat2Z.inj_succ, Z.pow_succ_r in Hx by lia.
    rewrite IH.
    + pose proof (Z.div_mod x 256 ltac:(lia)). lia.
    + split; [apply Z.div_pos; lia|apply Z.div_lt_upper_bound; lia].
Qed.

Section LinkFacts.
Context {T : transport}.
Implicit Types (l : link T) (cmd : list byte).

Lemma written_send cmd l :
  written (snd (_send_command cmd l)) = written l ++ [cmd].
Proof.
  unfold _send_command, written. destruct (exchange T (dev l) cmd) as [d reply].
  cbn. by rewrite fmap_app.
Qed.

Lemma written_after cmds l : written (after cmds l) = written l ++ cmds.
Proof.
  revert l; induction cmds as [|cmd cmds IH]; intros l; cbn [after].
  - by rewrite app_nil_r.
  - rewrite IH, written_send, <- app_assoc. done.
Qed.

Lemma after_app cmds1 cmds2 l : after (cmds1 ++ cmds2) l = after cmds2 (after cmds1 l).
Proof. revert l; induction cmds1 as [|c cs IH]; intros l; cbn; [done|apply IH]. Qed.

Lemma send_command_ok cmd l :
  ∃ reply, _send_command cmd l = (Ok reply, after [cmd] l).
Proof.
  unfold after, _send_command. destruct (exchange T (dev l) cmd) as [d reply].
  by eexists.
Qed.

(** A WRITE frame for a byte-sized address and value is sent as such. *)
Lemma send_write_frame addr v l :
  0 <= addr < 256 → 0 <= v < 256 →
  ∃ reply, send_ints [0x20; addr; v] l = (Ok reply, after [write_frame addr v] l).
Proof.
  intros Ha Hv. unfold send_ints, bytes_of_ints.
  replace ((0 <=? addr) && (addr <? 256)) with true by lia.
  replace ((0 <=? v) && (v <? 256)) with true by lia.
  cbn. apply send_command_ok.
Qed.

(** The loop that writes a little-endian register byte by byte. *)
Lemma write_register_loop (addr : Z → Z) n x k m l :
  (k + m <= n)%nat →
  (∀ i, (i < n)%nat → 0 <= addr (Z.of_nat i) < 256) →
  for_each (Z.of_nat <$> seq k m) (λ i,
      v ← lift (bytes_index (le_digits n x) i);
      _ ← send_ints [0x20; addr i; v]; mret ()) l
  = (Ok (),
     after ((λ i, write_frame (addr (Z.of_nat i)) (x / 256 ^ Z.of_nat i mod 256))
              <$> seq k m) l).
Proof.
  intros Hkm Haddr. revert k l Hkm; induction m as [|m IH]; intros k l Hkm; [done|].
  cbn [seq fmap list_fmap for_each after].
  unfold mbind at 1, io_bind at 1. unfold mbind at 1, io_bind at 1.
  rewrite bytes_index_le_digits by lia. unfold lift at 1.
  unfold mbind at 1, io_bind at 1.
  destruct (send_write_frame (addr (Z.of_nat k)) (x / 256 ^ Z.of_nat k mod 256) l)
    as [reply ->]; [apply Haddr; lia|apply Z.mod_pos_bound; lia|].
  unfold mret at 1, io_ret at 1. cbn [after].
  apply IH. lia.
Qed.
End LinkFacts.

Lemma to_bytes_ok n x :
  0 <= x < 256 ^ Z.of_nat n → to_bytes n x = Ok (le_digits n x).
Proof. intros Hx. unfold to_bytes. by replace ((0 <=? x) && (x <? 256 ^ Z.of_nat n)) with true by lia. Qed.

Lemma bytes_index_le_digits_Z n x i :
  0 <= i < Z.of_nat n →
  bytes_index (le_digits n x) i = Ok (x / 256 ^ i mod 256).
Proof.
  intros Hi. rewrite <- (Z2Nat.id i) by lia. apply bytes_index_le_digits. lia.
Qed.

Lemma bytes_of_write_frame addr v :
  0 <= addr < 256 → 0 <= v < 256 →
  bytes_of_ints [0x20; addr; v] = Ok (write_frame addr v).
Proof.
  intros Ha Hv. unfold bytes_of_ints.
  replace ((0 <=? addr) && (addr <? 256)) with true by lia.
  by replace ((0 <=? v) && (v <? 256)) with true by lia.
Qed.

(** The step of a sweep given by two [int] bounds less than [2^53] apart
    is the integer quotient. *)
Lemma sweep_step_hz_int start_hz stop_hz points :
  0 <= stop_hz - start_hz < 2 ^ 53 → 2 <= points < 2 ^ 16 →
  ∃ step, sweep_step_hz (PyInt start_hz) (PyInt stop_hz) points = Ok step ∧
          py_int step = Ok ((stop_hz - start_hz) / (points - 1)).
Proof.
  intros Hd Hp. unfold sweep_step_hz.
  replace (1 <? points) with true by lia.
  destruct (int_truediv_exact (stop_hz - start_hz) (points - 1)) as (f & Hf & Hi);
    [lia|change (2 ^ 64) with 18446744073709551616; change (2 ^ 16) with 65536 in Hp; lia|].
  exists (PyFloat f). cbn. rewrite Hf. done.
Qed.

(** The banner of [setup_sweep] can be printed for every 64-bit [int]. *)
Lemma banner_ok z :
  0 <= z < 2 ^ 64 → is_ok (py_truediv (PyInt z) (PyFloat float_1e6)) = true.
Proof.
  intros Hz. unfold py_truediv, as_float, float_of_int.
  replace (Z.abs z <? 2 ^ 1024 - 2 ^ 970) with true; [done|].
  symmetry. apply Z.ltb_lt. rewrite Z.abs_eq by lia.
  eapply Z.lt_trans; [apply Hz|]. by vm_compute.
Qed.

Ltac io_bind := unfold mbind at 1, io_bind at 1.

Section SweepFacts.
Context {T : transport}.
Implicit Types (l : link T).

Lemma register_writes_2 base x :
  register_writes base 2 x =
  [write_frame (base + 0) (x / 256 ^ 0 mod 256);
   write_frame (base + 1) (x / 256 ^ 1 mod 256)].
Proof. done. Qed.

(** What [setup_sweep] does once the step is known to be [step_hz]. *)
Lemma setup_sweep_run l start_hz stop_hz points step step_hz :
  is_ok (py_truediv start_hz (PyFloat float_1e6)) = true →
  is_ok (py_truediv stop_hz (PyFloat float_1e6)) = true →
  sweep_step_hz start_hz stop_hz points = Ok step →
  py_int step = Ok step_hz →
  ∀ start, py_int start_hz = Ok start →
  0 <= start < 2 ^ 64 → 0 <= step_hz < 2 ^ 64 → 0 <= points < 2 ^ 16 →
  let l' := after (sweep_frames start step_hz points) l in
  setup_sweep start_hz stop_hz points l = (Ok (), l') ∧
  setup_sweep_simple start_hz stop_hz points l = (Ok (), l').
Proof.
  intros Hban1 Hban2 Hstep Hint start Hstart Hs Hst Hp l'.
  assert (Hb0 : 0 <= points / 256 ^ 0 mod 256 < 256) by (apply Z.mod_pos_bound; lia).
  assert (Hb1 : 0 <= points / 256 ^ 1 mod 256 < 256) by (apply Z.mod_pos_bound; lia).
  pose proof (write_register_loop (T:=T) (λ i, i) 8 start 0 8) as L1.
  pose proof (write_register_loop (T:=T) (λ i, 0x10 + i) 8 step_hz 0 8) as L2.
  assert (E8 : Z.of_nat <$> seq 0 8 = range 8) by done.
  rewrite E8 in L1, L2.
  subst l'. unfold sweep_frames. rewrite !after_app.
  set (l1 := after (register_writes 0 8 start) l).
  set (l2 := after (register_writes 16 8 step_hz) l1).
  split.
  - unfold setup_sweep.
    io_bind. unfold lift at 1.
    destruct (py_truediv start_hz (PyFloat float_1e6)); [|done].
    io_bind. unfold lift at 1.
    destruct (py_truediv stop_hz (PyFloat float_1e6)); [|done].
    io_bind. unfold lift at 1. rewrite Hstep.
    io_bind. unfold lift at 1. rewrite Hstart. cbn [mbind result_bind].
    rewrite to_bytes_ok by done.
    io_bind. rewrite L1; [|lia|lia].
    io_bind. unfold lift at 1. rewrite Hint. cbn [mbind result_bind].
    rewrite to_bytes_ok by done.
    io_bind. rewrite L2; [|lia|lia].
    io_bind. unfold lift at 1. rewrite to_bytes_ok by done.
    io_bind. unfold lift at 1.
    rewrite (bytes_index_le_digits_Z 2 points 0) by lia.
    io_bind. unfold lift at 1. rewrite bytes_of_write_frame by (done || lia).
    io_bind. unfold lift at 1.
    rewrite (bytes_index_le_digits_Z 2 points 1) by lia.
    io_bind. unfold lift at 1. rewrite bytes_of_write_frame by (done || lia).
    io_bind.
    match goal with |- context [_send_command ?c ?l] => destruct (send_command_ok c l) as [r1 ->] end.
    io_bind. rewrite <- after_app.
    match goal with |- context [_send_command ?c ?l] => destruct (send_command_ok c l) as [r2 ->] end.
    io_bind. unfold lift at 1. rewrite to_bytes_ok by done.
    io_bind. unfold lift at 1.
    rewrite (bytes_index_le_digits_Z 2 1 0) by lia.
    io_bind. unfold lift at 1. rewrite bytes_of_write_frame by done.
    io_bind. unfold lift at 1.
    rewrite (bytes_index_le_digits_Z 2 1 1) by lia.
    io_bind. unfold lift at 1. rewrite bytes_of_write_frame by done.
    io_bind. rewrite <- after_app.
    match goal with |- context [_send_command ?c ?l] => destruct (send_command_ok c l) as [r3 ->] end.
    io_bind. rewrite <- after_app.
    match goal with |- context [_send_command ?c ?l] => destruct (send_command_ok c l) as [r4 ->] end.
    rewrite <- after_app. done.
  - unfold setup_sweep_simple.
    io_bind. unfold lift at 1. rewrite Hstep.
    io_bind. unfold lift at 1. rewrite Hstart. cbn [mbind result_bind].
    rewrite to_bytes_ok by done.
    io_bind. rewrite L1; [|lia|lia].
    io_bind. unfold lift at 1. rewrite Hint. cbn [mbind result_bind].
    rewrite to_bytes_ok by done.
    io_bind. rewrite L2; [|lia|lia].
    io_bind. unfold lift at 1. rewrite to_bytes_ok by done.
    io_bind. unfold lift at 1.
    rewrite (bytes_index_le_digits_Z 2 points 0) by lia.
    io_bind.
    match goal with |- context [send_ints [_; ?a; ?v] ?l] =>
      destruct (send_write_frame a v l) as [r1 ->]; [done|done|] end.
    io_bind. unfold lift at 1.
    rewrite (bytes_index_le_digits_Z 2 points 1) by lia.
    io_bind. rewrite <- after_app.
    match goal with |- context [send_ints [_; ?a; ?v] ?l] =>
      destruct (send_write_frame a v l) as [r2 ->]; [done|done|] end.
    io_bind. rewrite <- after_app.
    match goal with |- context [send_ints [_; ?a; ?v] ?l] =>
      destruct (send_write_frame a v l) as [r3 ->]; [done|done|] end.
    io_bind. rewrite <- after_app.
    match goal with |- context [send_ints [_; ?a; ?v] ?l] =>
      destruct (send_write_frame a v l) as [r4 ->]; [done|done|] end.
    rewrite <- after_app. done.
Qed.
End SweepFacts.

(** ** Sweep programming *)

(** C1 (as amended).  For 64-bit [start_hz] and [stop_hz] and a 16-bit
    [points] with [points >= 2], [stop_hz > start_hz] and
    [stop_hz - start_hz < 2^53], both [setup_sweep] methods succeed and
    write exactly the frames [[0x20, addr, value]] of [sweep_frames]: the 8
    little-endian bytes of [start_hz] at [0x00..0x07], the 8 little-endian
    bytes of the integer quotient [(stop_hz - start_hz) / (points - 1)] at
    [0x10..0x17], the 2 little-endian bytes of [points] at [0x20..0x21] and
    the 2 little-endian bytes of [1] at [0x22..0x23], in this order. *)
Theorem setup_sweep_writes_registers {T} (l : link T) (start_hz stop_hz points : Z) :
  0 <= start_hz < 2 ^ 64 → 0 <= stop_hz < 2 ^ 64 → 2 <= points < 2 ^ 16 →
  start_hz < stop_hz → stop_hz - start_hz < 2 ^ 53 →
  let step_hz := (stop_hz - start_hz) / (points - 1) in
  let frames := sweep_frames start_hz step_hz points in
  setup_sweep (PyInt start_hz) (PyInt stop_hz) points l = (Ok (), after frames l) ∧
  setup_sweep_simple (PyInt start_hz) (PyInt stop_hz) points l
    = (Ok (), after frames l) ∧
  written (after frames l) = written l ++ frames.
Proof.
  intros Hstart Hstop Hpoints Hlt Hd step_hz frames.
  destruct (sweep_step_hz_int start_hz stop_hz points) as (step & Hstep & Hint);
    [lia|done|].
  assert (0 <= step_hz < 2 ^ 64) as Hs.
  { subst step_hz. split; [apply Z.div_pos; lia|].
    apply Z.div_lt_upper_bound; [lia|].
    change (2 ^ 53) with 9007199254740992 in Hd.
    change (2 ^ 64) with 18446744073709551616. nia. }
  destruct (setup_sweep_run l (PyInt start_hz) (PyInt stop_hz) points step step_hz
              (banner_ok _ Hstart) (banner_ok _ Hstop)
              Hstep Hint start_hz eq_refl Hstart Hs) as [H1 H2]; [lia|].
  split_and!; [exact H1|exact H2|apply written_after].
Qed.

Lemma setup_sweep_writes_registers_witness :
  (0 <= 1000000 < 2 ^ 64 ∧ 0 <= 100000000 < 2 ^ 64 ∧ 2 <= 11 < 2 ^ 16 ∧
   1000000 < 100000000 ∧ 100000000 - 1000000 < 2 ^ 53) ∧
  let frames := sweep_frames 1000000 ((100000000 - 1000000) / (11 - 1)) 11 in
  setup_sweep (PyInt 1000000) (PyInt 100000000) 11 idle
    = (Ok (), after frames idle) ∧
  setup_sweep_simple (PyInt 1000000) (PyInt 100000000) 11 idle
    = (Ok (), after frames idle) ∧
  written (after frames idle) = written idle ++ frames.
Proof.
  split; [done|].
  apply (setup_sweep_writes_registers idle 1000000 100000000 11); done.
Defined.

(** C1, counterexample.  Without the bound [2^53] the statement fails:
    with [start_hz = 0], [points = 2] and [stop_hz = 2^53 + 1] the quotient
    is rounded to a double before it is truncated, and the step written is
    [2^53]; with [stop_hz = 2^64 - 1] the rounded step is [2^64],
    [to_bytes] raises and only the 8 frames of the start frequency are
    written. *)
Lemma setup_sweep_large_step :
  (let '(r, l) := setup_sweep (PyInt 0) (PyInt (2 ^ 53 + 1)) 2 idle in
   r = Ok () ∧
   written l = sweep_frames 0 (2 ^ 53) 2 ∧
   written l ≠ sweep_frames 0 ((2 ^ 53 + 1 - 0) / (2 - 1)) 2) ∧
  (let '(r, l) := setup_sweep (PyInt 0) (PyInt (2 ^ 64 - 1)) 2 idle in
   r = Raise OverflowError ∧
   written l = register_writes 0x00 8 0 ∧
   written l ≠ sweep_frames 0 ((2 ^ 64 - 1 - 0) / (2 - 1)) 2).
Proof. vm_compute. split_and!; done. Qed.

(** The literal [100e6]. *)
Lemma float_literals :
  float_of_int 1000000 = Ok float_1e6 ∧
  float_of_int 100000000 = Ok float_100e6.
Proof. done. Qed.

(** The bytes the specification quotes for the start frequency are those of
    [1_000_000_000]. *)
Lemma quoted_start_bytes :
  le_value (byte_of_Z <$> [0x00; 0xCA; 0x9A; 0x3B; 0; 0; 0; 0]) = 1000000000.
Proof. done. Qed.

(** C6 (as amended).  [setup_sweep(1_000_000, 100_000_000, 11)] computes
    the step [9_900_000] and first writes the bytes
    [40 42 0F 00 00 00 00 00] (little-endian [1_000_000]) to the addresses
    [0x00..0x07]; the call [setup_sweep(1e6, 100e6, 11)] of [main] writes
    the same frames. *)
Theorem setup_sweep_example {T} (l : link T) :
  sweep_step_hz (PyInt 1000000) (PyInt 100000000) 11
    = Ok (PyFloat (S754_finite false 5315022028800000 (-29))) ∧
  int_of_float (S754_finite false 5315022028800000 (-29)) = Ok 9900000 ∧
  let frames := sweep_frames 1000000 9900000 11 in
  setup_sweep (PyInt 1000000) (PyInt 100000000) 11 l = (Ok (), after frames l) ∧
  setup_sweep (PyFloat float_1e6) (PyFloat float_100e6) 11 l
    = (Ok (), after frames l) ∧
  written (after frames l) = written l ++ frames ∧
  take 8 frames =
    zip_with write_frame [0; 1; 2; 3; 4; 5; 6; 7]
                         [0x40; 0x42; 0x0F; 0x00; 0x00; 0x00; 0x00; 0x00].
Proof.
  split; [done|]. split; [done|]. intros frames.
  split_and!.
  - by apply (setup_sweep_run l (PyInt 1000000) (PyInt 100000000) 11
                (PyFloat (S754_finite false 5315022028800000 (-29))) 9900000).
  - by apply (setup_sweep_run l (PyFloat float_1e6) (PyFloat float_100e6) 11
                (PyFloat (S754_finite false 5315022028800000 (-29))) 9900000).
  - apply written_after.
  - done.
Qed.

(** C6, counterexample.  The start frames do not carry the bytes
    [00 CA 9A 3B 00 00 00 00]. *)
Lemma setup_sweep_example_start_bytes :
  take 8 (written (snd (setup_sweep (PyInt 1000000) (PyInt 100000000) 11 idle)))
  ≠ zip_with write_frame [0; 1; 2; 3; 4; 5; 6; 7]
                         [0x00; 0xCA; 0x9A; 0x3B; 0x00; 0x00; 0x00; 0x00].
Proof. vm_compute. done. Qed.

(** ** The binary64 implementation satisfies the complex interface *)

Lemma ieee_quot_nonzero z w : IEEE.is_zero w = false → ∃ q, IEEE.quot z w = Ok q.
Proof.
  destruct w as [re im]; unfold IEEE.is_zero, IEEE.quot; cbn [fst snd].
  destruct re as [sr|sr| |sr mr er], im as [si|si| |si mi ei];
    cbn; intros Hz; try discriminate Hz; eauto;
    repeat match goal with
           | |- context [if ?b then _ else _] => destruct b
           end; eauto.
Qed.

Lemma ieee_cabs_zero w :
  IEEE.is_zero w = true → SFltb IEEE.eps (IEEE.cabs w) = false.
Proof.
  destruct w as [re im]; unfold IEEE.is_zero; cbn [fst snd].
  destruct re as [sr|sr| |sr mr er], im as [si|si| |si mi ei];
    cbn; intros Hz; try discriminate Hz.
  destruct sr, si; reflexivity.
Qed.

Definition ieee_complex : PyComplex := {|
  pyfloat := spec_float;
  pycomplex := IEEE.complex;
  np_float64 := IEEE.complex;
  complex_of_ints := IEEE.of_ints;
  complex_abs := IEEE.cabs;
  above_1e_6 := SFltb IEEE.eps;
  complex_is_zero := IEEE.is_zero;
  complex_div := IEEE.quot;
  np_angle := λ z, z;
  complex_div_nonzero := ieee_quot_nonzero;
  complex_abs_zero := ieee_cabs_zero;
  complex_of_ints_zero := eq_refl
|}.

(** C7, counterexample.  [setup_sweep] itself checks nothing: with
    [points = 1] and [stop_hz = start_hz] all 20 frames are written, and
    with [stop_hz < start_hz] the 8 frames of the start frequency are
    written before the negative step makes [to_bytes] raise. *)
Lemma setup_sweep_unchecked :
  (let '(r, l) := setup_sweep (PyInt 1000) (PyInt 1000) 1 idle in
   r = Ok () ∧ written l = sweep_frames 1000 0 1 ∧ length (written l) = 20%nat) ∧
  (let '(r, l) := setup_sweep (PyInt 5) (PyInt 3) 2 idle in
   r = Raise OverflowError ∧ written l = register_writes 0x00 8 5).
Proof. vm_compute. split_and!; done. Qed.

(** C7 (as amended).  The validation is in the caller: one pass through the
    menu of [nanovna_original.main] refuses a request with
    [start_mhz >= stop_mhz], [points < 2] or [points > 1001] before
    [setup_sweep] is called, so that nothing is written to the device. *)
Theorem measure_once_rejects {ops : PyComplex} {T} (l : link T)
    (start_mhz stop_mhz : pynum) (points : Z) :
  py_ge start_mhz stop_mhz = true ∨ points < 2 ∨ 1001 < points →
  measure_once start_mhz stop_mhz points l = (Ok None, l).
Proof.
  intros Hbad. unfold measure_once.
  destruct (py_ge start_mhz stop_mhz); [done|].
  destruct Hbad as [?|Hp]; [done|].
  by replace ((points <? 2) || (1001 <? points)) with true by lia.
Qed.

Lemma measure_once_rejects_witness :
  (py_ge (PyInt 100) (PyFloat (S754_finite false 1 0)) = true ∨ 101 < 2 ∨ 1001 < 101) ∧
  measure_once (ops:=ieee_complex) (PyInt 100) (PyFloat (S754_finite false 1 0)) 101 idle
    = (Ok None, idle).
Proof.
  split; [by left|].
  apply (measure_once_rejects (ops:=ieee_complex) idle); by left.
Defined.

(** ** Record decoding *)

Lemma le_value_slice b off n :
  (off + n <= length b)%nat →
  le_value (slice b off (off + n)) = uint_at b off n.
Proof.
  unfold slice. replace (off + n - off)%nat with n by lia.
  revert off; induction n as [|n IH]; intros off Hlen.
  - by rewrite take_0.
  - destruct (drop off b) as [|x rest] eqn:Hd.
    { apply (f_equal length) in Hd. rewrite length_drop in Hd. cbn in Hd. lia. }
    cbn [take le_value uint_at].
    assert (b !! off = Some x) as Hx.
    { rewrite <- (Nat.add_0_r off), <- lookup_drop, Hd. done. }
    assert (drop (S off) b = rest) as Hr.
    { replace (S off) with (off + 1)%nat by lia.
      rewrite <- drop_drop, Hd. done. }
    unfold byte_at at 1. rewrite Hx. cbn [from_option].
    rewrite <- IH by lia. by rewrite Hr.
Qed.

Lemma slice_length b off n :
  (off + n <= length b)%nat → length (slice b off (off + n)) = n.
Proof. intros Hlen. unfold slice. rewrite length_take, length_drop. lia. Qed.

Lemma unpack_i32_slice b off hi :
  hi = (off + 4)%nat → (hi <= length b)%nat →
  unpack_i32 (slice b off hi) = Ok (int32_at b off).
Proof.
  intros -> Hlen. unfold unpack_i32, int32_at.
  rewrite slice_length, le_value_slice by done. done.
Qed.

Lemma unpack_u16_slice b off hi :
  hi = (off + 2)%nat → (hi <= length b)%nat →
  unpack_u16 (slice b off hi) = Ok (uint16_at b off).
Proof.
  intros -> Hlen. unfold unpack_u16, uint16_at.
  rewrite slice_length, le_value_slice by done. done.
Qed.

Section DecoderFacts.
Context {ops : PyComplex}.

(** The guard of the decoder keeps the division away from a zero
    divisor. *)
Lemma guarded_division z w :
  above_1e_6 (complex_abs w) = true → ∃ q, complex_div z w = Ok q.
Proof.
  intros Hg. apply complex_div_nonzero.
  destruct (complex_is_zero w) eqn:Hz; [|done].
  apply complex_abs_zero in Hz. congruence.
Qed.

Lemma calibrated_ok reference s11_raw s21_raw :
  ∃ s11 s21, calibrated reference s11_raw s21_raw = Ok (s11, s21).
Proof.
  unfold calibrated. destruct (above_1e_6 (complex_abs reference)) eqn:Hg; [|eauto].
  destruct (guarded_division s11_raw reference Hg) as [q1 ->].
  destruct (guarded_division s21_raw reference Hg) as [q2 ->].
  cbn. eauto.
Qed.

(** The body of [_parse_fifo_data] on a record of 32 bytes, field by
    field. *)
Lemma parse_fifo_body_32 (rec : list byte) :
  length rec = 32%nat →
  parse_fifo_body rec =
    let reference := complex_of_ints (int32_at rec 0) (int32_at rec 4) in
    '(s11, s21) ← calibrated reference
                    (complex_of_ints (int32_at rec 8) (int32_at rec 12))
                    (complex_of_ints (int32_at rec 16) (int32_at rec 20));
    Ok (Some {| freq_index := uint16_at rec 24;
                s11 := s11;
                s21 := s21;
                s11_magnitude := complex_abs s11;
                s11_phase := np_angle s11;
                s21_magnitude := complex_abs s21;
                s21_phase := np_angle s21;
                raw_reference := complex_abs reference |}).
Proof.
  intros Hlen. unfold parse_fifo_body. rewrite Hlen. cbn [Nat.eqb negb].
  rewrite (unpack_i32_slice rec 0 4), (unpack_i32_slice rec 4 8),
    (unpack_i32_slice rec 8 12), (unpack_i32_slice rec 12 16),
    (unpack_i32_slice rec 16 20), (unpack_i32_slice rec 20 24),
    (unpack_u16_slice rec 24 26) by (done || lia).
  done.
Qed.

Lemma parse_data_body_32 (rec : list byte) :
  (16 <= length rec)%nat →
  parse_data_body rec =
    let reference := complex_of_ints (int32_at rec 0) (int32_at rec 4) in
    s11 ← (if above_1e_6 (complex_abs reference)
           then complex_div (complex_of_ints (int32_at rec 8) (int32_at rec 12))
                            reference
           else Ok (complex_of_ints 0 0));
    Ok {| m_s11 := s11; m_magnitude := complex_abs s11; m_phase := np_angle s11 |}.
Proof.
  intros Hlen. unfold parse_data_body.
  rewrite (unpack_i32_slice rec 0 4), (unpack_i32_slice rec 4 8),
    (unpack_i32_slice rec 8 12), (unpack_i32_slice rec 12 16) by (done || lia).
  done.
Qed.

Lemma parse_fifo_data_32 (rec : list byte) :
  length rec = 32%nat →
  ∃ p, parse_fifo_body rec = Ok (Some p) ∧ _parse_fifo_data rec = Some p ∧
       freq_index p = uint16_at rec 24 ∧
       raw_reference p
         = complex_abs (complex_of_ints (int32_at rec 0) (int32_at rec 4)) ∧
       calibrated (complex_of_ints (int32_at rec 0) (int32_at rec 4))
                  (complex_of_ints (int32_at rec 8) (int32_at rec 12))
                  (complex_of_ints (int32_at rec 16) (int32_at rec 20))
         = Ok (s11 p, s21 p).
Proof.
  intros Hlen. unfold _parse_fifo_data. rewrite parse_fifo_body_32 by done.
  cbv zeta.
  destruct (calibrated_ok (complex_of_ints (int32_at rec 0) (int32_at rec 4))
              (complex_of_ints (int32_at rec 8) (int32_at rec 12))
              (complex_of_ints (int32_at rec 16) (int32_at rec 20)))
    as (q1 & q2 & ->).
  cbn. eexists. split_and!; done.
Qed.

Lemma parse_data_16 (rec : list byte) :
  (16 <= length rec)%nat →
  ∃ m, parse_data_body rec = Ok m ∧ _parse_data rec = Some m ∧
       (if above_1e_6 (complex_abs (complex_of_ints (int32_at rec 0) (int32_at rec 4)))
        then complex_div (complex_of_ints (int32_at rec 8) (int32_at rec 12))
                         (complex_of_ints (int32_at rec 0) (int32_at rec 4))
        else Ok (complex_of_ints 0 0)) = Ok (m_s11 m).
Proof.
  intros Hlen. unfold _parse_data. rewrite parse_data_body_32 by done.
  cbv zeta.
  destruct (above_1e_6 _) eqn:Hg.
  - destruct (guarded_division (complex_of_ints (int32_at rec 8) (int32_at rec 12))
                _ Hg) as [q ->].
    cbn. eexists. split_and!; done.
  - cbn. eexists. split_and!; done.
Qed.

(** [_parse_fifo_data] refuses exactly the byte strings whose length is
    not 32. *)
Lemma parse_fifo_data_None (rec : list byte) :
  _parse_fifo_data rec = None ↔ length rec ≠ 32%nat.
Proof.
  split.
  - intros Hn Hlen. destruct (parse_fifo_data_32 rec Hlen) as (p & _ & Hp & _).
    congruence.
  - intros Hlen. unfold _parse_fifo_data, parse_fifo_body.
    apply Nat.eqb_neq in Hlen. by rewrite Hlen.
Qed.

(** The decoding loop keeps the parses of the complete chunks. *)
Lemma decode_with_spec {A} (parse : list byte → option A) (data : list byte) :
  decode_with parse data = omap parse (complete_chunks data).
Proof.
  unfold decode_with.
  set (g := λ i : nat,
         let c := slice data i (i + 32) in
         if (length c =? 32)%nat
         then match parse c with Some p => [p] | None => [] end
         else []).
  assert (Hfold : ∀ xs acc,
    foldl (λ acc i,
             let c := slice data i (i + 32) in
             if (length c =? 32)%nat
             then match parse c with Some p => acc ++ [p] | None => acc end
             else acc) acc xs = acc ++ concat (g <$> xs)).
  { induction xs as [|i xs IH]; intros acc; cbn [foldl fmap list_fmap concat].
    - by rewrite app_nil_r.
    - rewrite IH. subst g. cbv beta zeta.
      destruct (length (slice data i (i + 32)) =? 32)%nat; [|done].
      destruct (parse _); [by rewrite <- app_assoc|done]. }
  rewrite Hfold. cbn [app]. unfold chunk_offsets, complete_chunks.
  rewrite <- !list_fmap_compose.
  set (len := length data).
  assert (Hg : ∀ k, g (32 * k)%nat =
                    if decide (32 * k + 32 <= len)%nat
                    then match parse (chunk data k) with Some p => [p] | None => [] end
                    else []).
  { intros k. subst g. cbv beta zeta. unfold slice, chunk.
    replace (32 * k + 32 - 32 * k)%nat with 32%nat by lia.
    rewrite length_take, length_drop. fold len.
    case_decide.
    - replace (32 `min` (len - 32 * k) =? 32)%nat with true; [done|].
      symmetry. apply Nat.eqb_eq. lia.
    - replace (32 `min` (len - 32 * k) =? 32)%nat with false; [done|].
      symmetry. apply Nat.eqb_neq. lia. }
  assert (Hdiv : (32 * (len / 32) <= len < 32 * (len / 32) + 32)%nat).
  { pose proof (Nat.div_mod_eq len 32). pose proof (Nat.mod_upper_bound len 32). lia. }
  assert (Hm : ((len + 31) / 32 = len / 32 ∨ (len + 31) / 32 = S (len / 32))%nat).
  { assert ((len + 31) / 32 < len / 32 + 2)%nat
      by (apply Nat.Div0.div_lt_upper_bound; lia).
    assert (len / 32 <= (len + 31) / 32)%nat
      by (apply Nat.Div0.div_le_mono; lia).
    lia. }
  assert (Hfull : ∀ n, (n <= len / 32)%nat → ∀ s, (s + n <= len / 32)%nat →
            concat ((g ∘ (λ k, 32 * k)%nat) <$> seq s n)
            = omap parse (chunk data <$> seq s n)).
  { induction n as [|n IH]; intros Hn s Hs; [done|].
    cbn [seq fmap list_fmap concat omap list_omap compose].
    rewrite Hg. rewrite decide_True by lia.
    rewrite IH by lia. by destruct (parse (chunk data s)). }
  destruct Hm as [-> | ->].
  - rewrite Hfull by lia. done.
  - rewrite seq_S, fmap_app, concat_app, Hfull by lia.
    cbn [fmap list_fmap concat compose]. rewrite Hg, decide_False by lia.
    by rewrite !app_nil_r.
Qed.

Lemma complete_chunks_length data : length (complete_chunks data) = (length data / 32)%nat.
Proof. unfold complete_chunks. by rewrite length_fmap, length_seq. Qed.

Lemma complete_chunk_length data c : c ∈ complete_chunks data → length c = 32%nat.
Proof.
  unfold complete_chunks. intros (k & -> & Hk)%list_elem_of_fmap.
  apply elem_of_seq in Hk. unfold chunk. rewrite length_take, length_drop.
  pose proof (Nat.div_mod_eq (length data) 32). lia.
Qed.
End DecoderFacts.

Section DecoderTheorems.
Context {ops : PyComplex}.

(** C2.  On a record of exactly 32 bytes [_parse_fifo_data] returns a
    sample whose fields are read at the fixed offsets: six little-endian
    signed 32-bit integers at 0, 4, 8, 12, 16, 20 (forward reference,
    first and second reverse channel, real part first) and the
    little-endian unsigned 16-bit frequency index at 24; when the modulus
    of the reference is above [1e-6], S11 and S21 are the quotients of
    the two reverse values by the reference. *)
Theorem parse_fifo_data_fields (rec : list byte) :
  length rec = 32%nat →
  let reference := complex_of_ints (int32_at rec 0) (int32_at rec 4) in
  let s11_raw := complex_of_ints (int32_at rec 8) (int32_at rec 12) in
  let s21_raw := complex_of_ints (int32_at rec 16) (int32_at rec 20) in
  ∃ p, _parse_fifo_data rec = Some p ∧
       freq_index p = uint16_at rec 24 ∧
       raw_reference p = complex_abs reference ∧
       (above_1e_6 (complex_abs reference) = true →
          complex_div s11_raw reference = Ok (s11 p) ∧
          complex_div s21_raw reference = Ok (s21 p)).
Proof.
  intros Hlen reference s11_raw s21_raw.
  destruct (parse_fifo_data_32 rec Hlen) as (p & _ & Hp & Hidx & Href & Hcal).
  exists p. split_and!; [done..|].
  intros Hg. fold reference s11_raw s21_raw in Hcal.
  unfold calibrated in Hcal. rewrite Hg in Hcal.
  destruct (complex_div s11_raw reference) as [q1|]; [|done].
  destruct (complex_div s21_raw reference) as [q2|]; [|done].
  cbn in Hcal. by simplify_eq.
Qed.

(** C4.  On a record of 32 bytes whose forward reference has a modulus
    that is not above [1e-6], in particular when the reference is
    [0+0i], the sample has S11 = S21 = [0+0i] whatever the reverse
    channels hold; [_parse_data] does the same for its S11. *)
Theorem zero_reference_guard (rec : list byte) :
  length rec = 32%nat →
  above_1e_6 (complex_abs (complex_of_ints (int32_at rec 0) (int32_at rec 4))) = false
  ∨ (int32_at rec 0 = 0 ∧ int32_at rec 4 = 0) →
  (∃ p, _parse_fifo_data rec = Some p ∧
        s11 p = complex_of_ints 0 0 ∧ s21 p = complex_of_ints 0 0) ∧
  (∃ m, _parse_data rec = Some m ∧ m_s11 m = complex_of_ints 0 0).
Proof.
  intros Hlen Hsmall.
  assert (above_1e_6 (complex_abs (complex_of_ints (int32_at rec 0) (int32_at rec 4)))
          = false) as Hg.
  { destruct Hsmall as [Hg|[-> ->]]; [done|].
    apply complex_abs_zero, complex_of_ints_zero. }
  split.
  - destruct (parse_fifo_data_32 rec Hlen) as (p & _ & Hp & _ & _ & Hcal).
    exists p. unfold calibrated in Hcal. rewrite Hg in Hcal. by simplify_eq.
  - destruct (parse_data_16 rec) as (m & _ & Hm & Hs11); [lia|].
    exists m. rewrite Hg in Hs11. by simplify_eq.
Qed.

(** C10.  On a chunk of exactly 32 bytes neither parser can fail: every
    field extraction is in bounds and the guarded division does not
    raise, so the body returns a sample without reaching the exception
    handler. *)
Theorem complete_chunk_decodes (rec : list byte) :
  length rec = 32%nat →
  (∃ p, parse_fifo_body rec = Ok (Some p) ∧ _parse_fifo_data rec = Some p) ∧
  (∃ m, parse_data_body rec = Ok m ∧ _parse_data rec = Some m).
Proof.
  intros Hlen. split.
  - destruct (parse_fifo_data_32 rec Hlen) as (p & Hb & Hp & _). eauto.
  - destruct (parse_data_16 rec) as (m & Hb & Hm & _); [lia|eauto].
Qed.

Lemma omap_total {A} (parse : list byte → option A) (cs : list (list byte)) :
  (∀ c, c ∈ cs → ∃ p, parse c = Some p) →
  Forall2 (λ c p, parse c = Some p) cs (omap parse cs).
Proof.
  induction cs as [|c cs IH]; intros Hall; [constructor|].
  destruct (Hall c) as [p Hp]; [left|].
  cbn [omap list_omap]. rewrite Hp. constructor; [done|].
  apply IH. intros c' Hc'. apply Hall. by right.
Qed.

(** A buffer and its longest prefix made of whole chunks have the same
    complete chunks. *)
Lemma complete_chunks_prefix (data : list byte) :
  complete_chunks (take (32 * (length data / 32)) data) = complete_chunks data.
Proof.
  unfold complete_chunks.
  assert (32 * (length data / 32) <= length data)%nat as Hle.
  { pose proof (Nat.div_mod_eq (length data) 32). lia. }
  rewrite length_take, Nat.min_l by done.
  rewrite (Nat.mul_comm 32), Nat.div_mul by done.
  apply list_fmap_ext. intros i k Hk.
  apply lookup_seq in Hk as [-> Hk]. unfold chunk.
  rewrite skipn_firstn_comm, take_take. f_equal. lia.
Qed.

(** C3.  The decoding loop cuts the buffer into consecutive chunks of 32
    bytes and yields exactly one sample per complete chunk, in order;
    the bytes after the last complete chunk are ignored.  A buffer of 64
    bytes gives 2 samples, and so does a buffer of 70 bytes. *)
Theorem decode_one_sample_per_chunk (data : list byte) :
  Forall2 (λ c p, _parse_fifo_data c = Some p)
          (complete_chunks data) (decode_points data) ∧
  Forall2 (λ c m, _parse_data c = Some m)
          (complete_chunks data) (decode_measurements data) ∧
  length (decode_points data) = (length data / 32)%nat ∧
  length (decode_measurements data) = (length data / 32)%nat ∧
  decode_points data = decode_points (take (32 * (length data / 32)) data) ∧
  (length data = 64%nat → length (decode_points data) = 2%nat) ∧
  (length data = 70%nat →
     length (decode_points data) = 2%nat ∧
     decode_points data = decode_points (take 64 data)).
Proof.
  assert (Forall2 (λ c p, _parse_fifo_data c = Some p)
            (complete_chunks data) (decode_points data)) as Hp.
  { unfold decode_points. rewrite decode_with_spec. apply omap_total.
    intros c Hc%complete_chunk_length.
    destruct (parse_fifo_data_32 c Hc) as (p & _ & Hp & _). eauto. }
  assert (Forall2 (λ c m, _parse_data c = Some m)
            (complete_chunks data) (decode_measurements data)) as Hm.
  { unfold decode_measurements. rewrite decode_with_spec. apply omap_total.
    intros c Hc%complete_chunk_length.
    destruct (parse_data_16 c) as (m & _ & Hm & _); [lia|eauto]. }
  assert (length (decode_points data) = (length data / 32)%nat) as Hlp.
  { rewrite <- (Forall2_length _ _ _ Hp). apply complete_chunks_length. }
  assert (decode_points data = decode_points (take (32 * (length data / 32)) data))
    as Hpre.
  { unfold decode_points. by rewrite !decode_with_spec, complete_chunks_prefix. }
  split_and!; try done.
  - rewrite <- (Forall2_length _ _ _ Hm). apply complete_chunks_length.
  - intros Hlen. by rewrite Hlp, Hlen.
  - intros Hlen. split; [by rewrite Hlp, Hlen|].
    rewrite Hpre at 1. by rewrite Hlen.
Qed.
End DecoderTheorems.

Lemma parse_fifo_data_fields_witness :
  length record_3_4 = 32%nat ∧
  ∃ p, _parse_fifo_data (ops:=ieee_complex) record_3_4 = Some p ∧
       freq_index p = uint16_at record_3_4 24 ∧
       raw_reference p
         = IEEE.cabs (IEEE.of_ints (int32_at record_3_4 0) (int32_at record_3_4 4)) ∧
       (SFltb IEEE.eps
          (IEEE.cabs (IEEE.of_ints (int32_at record_3_4 0) (int32_at record_3_4 4)))
        = true →
        IEEE.quot (IEEE.of_ints (int32_at record_3_4 8) (int32_at record_3_4 12))
                  (IEEE.of_ints (int32_at record_3_4 0) (int32_at record_3_4 4))
          = Ok (s11 p) ∧
        IEEE.quot (IEEE.of_ints (int32_at record_3_4 16) (int32_at record_3_4 20))
                  (IEEE.of_ints (int32_at record_3_4 0) (int32_at record_3_4 4))
          = Ok (s21 p)).
Proof.
  split; [reflexivity|].
  apply (parse_fifo_data_fields (ops:=ieee_complex) record_3_4). reflexivity.
Defined.

Lemma zero_reference_guard_witness :
  (length record_zero_reference = 32%nat ∧
   int32_at record_zero_reference 0 = 0 ∧ int32_at record_zero_reference 4 = 0) ∧
  (∃ p, _parse_fifo_data (ops:=ieee_complex) record_zero_reference = Some p ∧
        s11 p = IEEE.of_ints 0 0 ∧ s21 p = IEEE.of_ints 0 0) ∧
  (∃ m, _parse_data (ops:=ieee_complex) record_zero_reference = Some m ∧
        m_s11 m = IEEE.of_ints 0 0).
Proof.
  split; [split_and!; reflexivity|].
  apply (zero_reference_guard (ops:=ieee_complex) record_zero_reference);
    [reflexivity|right; split; reflexivity].
Defined.

Lemma complete_chunk_decodes_witness :
  length record_3_4 = 32%nat ∧
  (∃ p, parse_fifo_body (ops:=ieee_complex) record_3_4 = Ok (Some p) ∧
        _parse_fifo_data record_3_4 = Some p) ∧
  (∃ m, parse_data_body (ops:=ieee_complex) record_3_4 = Ok m ∧
        _parse_data record_3_4 = Some m).
Proof.
  split; [reflexivity|].
  apply (complete_chunk_decodes (ops:=ieee_complex) record_3_4). reflexivity.
Defined.

(** The sample decoded from [record_3_4]: [(-6+8i)/(3+4i) = 0.56+1.92i],
    [5i/(3+4i) = 0.8+0.6i], reference modulus 5, index 7; the first raw
    value shows the sign extension of the 32-bit fields. *)
Example decode_record_3_4 :
  int32_at record_3_4 8 = -6 ∧
  (λ p, (freq_index p, s11 p, s21 p, raw_reference p))
    <$> _parse_fifo_data (ops:=ieee_complex) record_3_4
  = Some (7,
          (S754_finite false 5044031582654956 (-53),
           S754_finite false 8646911284551352 (-52)),
          (S754_finite false 7205759403792794 (-53),
           S754_finite false 5404319552844595 (-53)),
          S754_finite false 5629499534213120 (-50)).
Proof. split; vm_compute; reflexivity. Qed.

(** ** The capture loop *)

Section CaptureFacts.
Context {T : transport}.
Implicit Types (l : link T) (reads : list exchanged).

Lemma readfifo_cmd_256 : bytes_of_ints (readfifo_cmd 256) = Ok readfifo_256.
Proof. done. Qed.

Lemma received_bytes_app reads1 reads2 :
  received_bytes (reads1 ++ reads2) = received_bytes reads1 ++ received_bytes reads2.
Proof. unfold received_bytes. by rewrite fmap_app, concat_app. Qed.

Lemma send_readfifo l :
  ∃ l' r, send_ints (readfifo_cmd 256) l = (Ok (received r), l') ∧
          sent r = readfifo_256 ∧
          (exchange T (dev l) readfifo_256).2 = received r ∧
          wire l' = wire l ++ [r].
Proof.
  unfold send_ints. rewrite readfifo_cmd_256.
  unfold mbind, io_bind, lift, _send_command.
  destruct (exchange T (dev l) readfifo_256) as [d reply].
  eexists _, {| sent := readfifo_256; received := reply |}. done.
Qed.

(** What the polling loop does with [n] attempts left. *)
Lemma read_blocks_spec n expected_points acc l :
  ∃ l' reads,
    read_blocks n expected_points acc l = (Ok (acc ++ received_bytes reads), l') ∧
    wire l' = wire l ++ reads ∧
    Forall (λ r, sent r = readfifo_256) reads ∧
    (length reads <= n)%nat ∧
    (length reads = n ∨
     expected_points * 32 <= Z.of_nat (length (acc ++ received_bytes reads))) ∧
    (∀ p r q, reads = p ++ r :: q → q ≠ [] → received r ≠ [] →
       Z.of_nat (length (acc ++ received_bytes (p ++ [r]))) < expected_points * 32) ∧
    (Z.of_nat (length acc) < expected_points * 32 →
     ∀ p q, reads = p ++ q → q ≠ [] →
       Z.of_nat (length (acc ++ received_bytes p)) < expected_points * 32) ∧
    ((∀ d cmd, (exchange T d cmd).2 = []) →
     length reads = n ∧ received_bytes reads = []).
Proof.
  revert acc l; induction n as [|n IH]; intros acc l.
  { exists l, []. cbn. rewrite !app_nil_r. split_and!; try done.
    - by left.
    - intros p r q Hp. by destruct p.
    - intros _ p q Hp Hq. destruct p, q; done. }
  cbn [read_blocks]. unfold mbind at 1, io_bind at 1.
  destruct (send_readfifo l) as (l1 & r & -> & Hsent & Hrecv & Hwire).
  destruct (received r) as [|b bs] eqn:Hr.
  - (* nothing new: next attempt with the same buffer *)
    destruct (IH acc l1) as (l' & reads & -> & Hw & Hall & Hlen & Hstop & Hearly & Hmin & Hsilent).
    exists l', (r :: reads).
    assert (received_bytes (r :: reads) = received_bytes reads) as Hrb
      by (unfold received_bytes; cbn; by rewrite Hr).
    rewrite Hrb. split_and!; try done.
    + rewrite Hw, Hwire, <- app_assoc. done.
    + by constructor.
    + cbn. lia.
    + destruct Hstop as [?|?]; [left; cbn; lia|by right].
    + intros p r' q Hp Hq Hr'. destruct p as [|r0 p]; cbn [app] in Hp; simplify_eq.
      specialize (Hearly p r' q eq_refl Hq Hr').
      unfold received_bytes in *. cbn. by rewrite Hr.
    + intros Hacc p q Hp Hq. destruct p as [|r0 p]; simplify_eq/=.
      * unfold received_bytes; cbn. rewrite app_nil_r. done.
      * destruct q as [|q0 q]; [done|].
        specialize (Hmin Hacc p (q0 :: q) eq_refl ltac:(done)).
        unfold received_bytes in *. cbn. by rewrite Hr.
    + intros Hs. destruct (Hsilent Hs) as [Hn ?]. split; [cbn; lia|done].
  - (* a block arrived *)
    destruct (Z.of_nat (length (acc ++ b :: bs)) >=? expected_points * 32) eqn:Hge.
    + exists l1, [r]. unfold received_bytes. cbn. rewrite Hr, app_nil_r.
      split_and!; try done.
      * by constructor.
      * lia.
      * right. lia.
      * intros p r' q Hp Hq. destruct p as [|? [|? ?]]; simplify_eq/=.
      * intros Hacc p q Hp Hq. destruct p as [|? [|? ?]]; simplify_eq/=.
        by rewrite app_nil_r.
      * intros Hs. specialize (Hs (dev l) readfifo_256). congruence.
    + destruct (IH (acc ++ b :: bs) l1)
        as (l' & reads & -> & Hw & Hall & Hlen & Hstop & Hearly & Hmin & Hsilent).
      exists l', (r :: reads).
      assert (∀ rs, (acc ++ b :: bs) ++ received_bytes rs
                    = acc ++ received_bytes (r :: rs)) as Hrb.
      { intros rs. unfold received_bytes. cbn. by rewrite Hr, <- app_assoc. }
      rewrite Hrb. split_and!; try done.
      * rewrite Hw, Hwire, <- app_assoc. done.
      * by constructor.
      * cbn. lia.
      * destruct Hstop as [?|?]; [left; cbn; lia|right]. by rewrite <- Hrb.
      * intros p r' q Hp Hq Hr'. destruct p as [|r0 p]; simplify_eq/=.
        -- rewrite <- Hrb. unfold received_bytes. cbn. rewrite app_nil_r. lia.
        -- rewrite <- Hrb. by apply (Hearly p r' q).
      * intros Hacc p q Hp Hq. destruct p as [|r0 p]; simplify_eq/=.
        -- unfold received_bytes; cbn. by rewrite app_nil_r.
        -- destruct q as [|q0 q]; [done|].
           rewrite <- Hrb. apply (Hmin ltac:(lia) p (q0 :: q)); done.
      * intros Hs. specialize (Hs (dev l) readfifo_256). congruence.
Qed.

(** C5 (as amended).  The acquisition of [capture_data_smart] clears the
    buffer and then issues at most five READFIFO commands, whatever the
    device answers; it returns the concatenation of the blocks read; it stops
    before the fifth read only when the accumulated length has reached
    [expected_points * 32]; the length is tested after each read that
    returned data, so that no read follows such a read once the target is
    reached, and for [expected_points >= 1] no read is issued at all once
    the target is reached; a device that never answers gets exactly five
    reads and the buffer is empty. *)
Theorem capture_bounded l (expected_points : Z) :
  ∃ l' clear reads,
    capture_bytes expected_points l = (Ok (received_bytes reads), l') ∧
    wire l' = wire l ++ clear :: reads ∧
    sent clear = [x20; x30; x00] ∧
    Forall (λ r, sent r = readfifo_256) reads ∧
    (length reads <= 5)%nat ∧
    (length reads = 5%nat ∨
     expected_points * 32 <= Z.of_nat (length (received_bytes reads))) ∧
    (∀ p r q, reads = p ++ r :: q → q ≠ [] → received r ≠ [] →
       Z.of_nat (length (received_bytes (p ++ [r]))) < expected_points * 32) ∧
    (1 <= expected_points →
     ∀ p q, reads = p ++ q → q ≠ [] →
       Z.of_nat (length (received_bytes p)) < expected_points * 32) ∧
    ((∀ d cmd, (exchange T d cmd).2 = []) →
     length reads = 5%nat ∧ received_bytes reads = []).
Proof.
  unfold capture_bytes, clear_fifo, send_ints.
  unfold mbind at 1, io_bind at 1. unfold mbind at 1, io_bind at 1.
  unfold mbind at 1, io_bind at 1. unfold lift at 1.
  change (bytes_of_ints [32; 48; 0]) with (Ok (A:=list byte) [x20; x30; x00]).
  unfold _send_command at 1.
  destruct (exchange T (dev l) [x20; x30; x00]) as [d reply] eqn:Hx.
  unfold mret at 1, io_ret at 1.
  set (l1 := {| dev := d; wire := wire l ++ [{| sent := [x20; x30; x00]; received := reply |}] |}).
  destruct (read_blocks_spec 5 expected_points [] l1)
    as (l' & reads & -> & Hw & Hall & Hlen & Hstop & Hearly & Hmin & Hsilent).
  exists l', {| sent := [x20; x30; x00]; received := reply |}, reads.
  cbn [app] in *. split_and!; try done.
  - rewrite Hw. subst l1. cbn [wire]. by rewrite <- app_assoc.
  - intros Hexp. apply Hmin. cbn. lia.
Qed.
End CaptureFacts.

(** C5, counterexample, for [expected_points = 0]: the accumulated length,
    0, has reached [0 * 32] from the start, and yet a device that never
    answers is read five times. *)
Lemma capture_zero_points :
  let '(r, l) := capture_bytes 0 idle in
  r = Ok [] ∧
  written l = [x20; x30; x00] :: replicate 5 readfifo_256 ∧
  0 * 32 <= Z.of_nat (length (@nil byte)).
Proof. vm_compute. split_and!; done. Qed.


(** ** The frequency axis *)

Lemma linspace_length start stop n : length (linspace start stop n) = n.
Proof.
  destruct n as [|[|n]]; [done..|].
  cbn [linspace]. rewrite length_app, length_fmap, length_seq. cbn. lia.
Qed.







(** An axis of four samples between 1 and 10 Hz; with the bounds exchanged
    the axis decreases. *)
Example linspace_1_10 :
  Forall2 Qeq (linspace 1 10 4) [1; 4; 7; 10]%Q ∧
  Forall2 Qeq (linspace 10 1 4) [10; 7; 4; 1]%Q.
Proof. split; repeat constructor. Qed.

(** ** Reciprocal and symmetric entries *)

Section SParamFacts.
Context {F C : Type} (czero : C).
Implicit Types (rows : list (F * C * C)) (m : s_matrix (C:=C)).

Lemma assign_column_same_length m i j (v : list C) :
  length v = length m →
  assign_column m i j v
    = Ok (zip_with (λ x blk, alter (λ row, <[j := x]> row) i blk) v m).
Proof.
  intros Hlen. unfold assign_column.
  by replace (length v =? length m)%nat with true by (symmetry; by apply Nat.eqb_eq).
Qed.

(** The matrix of a stored measurement: for every row of the data frame
    the block [[S11, S21], [S21, S11]]. *)
Lemma build_matrix rows :
  let s11 := (λ r, r.1.2) <$> rows in
  let s21 := (λ r, r.2) <$> rows in
  (m ← Ok (zeros czero (length rows));
   m ← assign_column m 0 0 s11;
   m ← assign_column m 1 0 s21;
   m ← assign_column m 0 1 s21;
   m ← assign_column m 1 1 s11;
   Ok m)
  = Ok ((λ r, [[r.1.2; r.2]; [r.2; r.1.2]]) <$> rows).
Proof.
  intros s11 s21.
  assert (length s11 = length rows) as H11 by (subst s11; apply length_fmap).
  assert (length s21 = length rows) as H21 by (subst s21; apply length_fmap).
  assert (length (zeros czero (length rows)) = length rows) as Hz
    by (unfold zeros; apply length_replicate).
  cbn [mbind result_bind].
  rewrite assign_column_same_length by congruence.
  cbn [mbind result_bind].
  rewrite assign_column_same_length by (rewrite length_zip_with; lia).
  cbn [mbind result_bind].
  rewrite assign_column_same_length by (rewrite !length_zip_with; lia).
  cbn [mbind result_bind].
  rewrite assign_column_same_length by (rewrite !length_zip_with; lia).
  cbn [mbind result_bind].
  f_equal. subst s11 s21. unfold zeros. clear H11 H21 Hz.
  induction rows as [|[[f a] b] rows IH]; [done|].
  cbn [length replicate fmap list_fmap zip_with]. f_equal. apply IH.
Qed.

(** C9.  After a measurement has been processed, the S12 sequence is the
    S21 sequence and the S22 sequence is the S11 sequence, entry by
    entry, and the matrix handed to the Touchstone writer holds, for
    every frequency, S11 at [0,0], S21 at [1,0], and these same two values
    again at [0,1] (as S12) and [1,1] (as S22). *)
Theorem reciprocal_s_params rows :
  let self := store_measurement rows in
  let s11 := (λ r, r.1.2) <$> rows in
  let s21 := (λ r, r.2) <$> rows in
  s_param self "S11" = Ok s11 ∧
  s_param self "S21" = Ok s21 ∧
  s_param self "S12" = s_param self "S21" ∧
  s_param self "S22" = s_param self "S11" ∧
  (∀ k, (s ← s_params self !! "S12"; s !! k) = s21 !! k ∧
        (s ← s_params self !! "S22"; s !! k) = s11 !! k) ∧
  (rows ≠ [] →
   ∃ m, save_s2p_matrix czero self = Ok (Some m) ∧
        length m = length rows ∧
        ∀ k f a b, rows !! k = Some (f, a, b) →
          entry m k 0 0 = Some a ∧ entry m k 1 0 = Some b ∧
          entry m k 0 1 = Some b ∧ entry m k 1 1 = Some a).
Proof.
  intros self s11 s21.
  assert (s_params self !! "S11" = Some s11) as H11 by done.
  assert (s_params self !! "S21" = Some s21) as H21 by done.
  assert (s_params self !! "S12" = Some s21) as H12 by done.
  assert (s_params self !! "S22" = Some s11) as H22 by done.
  unfold s_param. rewrite H11, H21, H12, H22.
  split_and!; try done.
  intros Hne.
  exists ((λ r, [[r.1.2; r.2]; [r.2; r.1.2]]) <$> rows).
  split_and!.
  - unfold save_s2p_matrix.
    rewrite bool_decide_false.
    2:{ intros Hempty. rewrite Hempty in H11. done. }
    unfold s_param. rewrite H11, H21, H12, H22. cbn [mbind result_bind].
    replace (length s11 =? 0)%nat with false.
    2:{ symmetry. apply Nat.eqb_neq. subst s11. rewrite length_fmap.
        by destruct rows. }
    cbn [frequencies self store_measurement].
    rewrite length_fmap.
    pose proof (build_matrix rows) as Hb. cbv zeta in Hb.
    cbn [mbind result_bind] in Hb. cbn [mbind result_bind].
    fold s11 s21 in Hb. rewrite Hb. done.
  - by rewrite length_fmap.
  - intros k f a b Hk. unfold entry. rewrite list_lookup_fmap, Hk. done.
Qed.
End SParamFacts.

(** * Further properties of the code *)

(** ** Sweep programming on arbitrary arguments *)

Lemma to_bytes_fits n x :
  to_bytes n x = if fits n x then Ok (le_digits n x) else Raise OverflowError.
Proof. done. Qed.

Section SweepOutcome.
Context {T : transport}.
Implicit Types (l : link T).

Lemma for_each_register (addr : Z → Z) x l :
  (∀ i, (i < 8)%nat → 0 <= addr (Z.of_nat i) < 256) →
  for_each (range 8) (λ i,
      v ← lift (bytes_index (le_digits 8 x) i);
      _ ← send_ints [0x20; addr i; v]; mret ()) l
  = (Ok (),
     after ((λ i, write_frame (addr (Z.of_nat i)) (x / 256 ^ Z.of_nat i mod 256))
              <$> seq 0 8) l).
Proof. intros Haddr. by apply (write_register_loop addr 8 x 0 8). Qed.

(** [NanoVNA_Simple.setup_sweep] is [sweep_outcome], played on the link. *)
Lemma setup_sweep_simple_outcome l start_hz stop_hz points :
  setup_sweep_simple start_hz stop_hz points l
  = ((sweep_outcome start_hz stop_hz points).1,
     after (sweep_outcome start_hz stop_hz points).2 l).
Proof.
  unfold setup_sweep_simple, sweep_outcome.
  io_bind. unfold lift at 1.
  destruct (sweep_step_hz start_hz stop_hz points) as [step_hz|e]; [|done].
  io_bind. unfold lift at 1.
  destruct (py_int start_hz) as [start|e]; [|done].
  cbn [mbind result_bind]. rewrite to_bytes_fits.
  destruct (fits 8 start) eqn:Hstart; [|done]. cbn [negb].
  io_bind. rewrite (for_each_register (λ i, i)) by lia.
  io_bind. unfold lift at 1.
  destruct (py_int step_hz) as [step|e]; [|done].
  cbn [mbind result_bind]. rewrite to_bytes_fits.
  destruct (fits 8 step) eqn:Hstep; [|done]. cbn [negb].
  io_bind. rewrite (for_each_register (λ i, 0x10 + i)) by lia.
  io_bind. unfold lift at 1. rewrite to_bytes_fits.
  destruct (fits 2 points) eqn:Hpoints; [|cbn [negb fst snd]; by rewrite after_app].
  cbn [negb].
  assert (Hb0 : 0 <= points / 256 ^ 0 mod 256 < 256) by (apply Z.mod_pos_bound; lia).
  assert (Hb1 : 0 <= points / 256 ^ 1 mod 256 < 256) by (apply Z.mod_pos_bound; lia).
  io_bind. unfold lift at 1.
  rewrite (bytes_index_le_digits_Z 2 points 0) by lia.
  io_bind.
  match goal with |- context [send_ints [_; ?a; ?v] ?l] =>
    destruct (send_write_frame a v l) as [r1 ->]; [done|done|] end.
  io_bind. unfold lift at 1.
  rewrite (bytes_index_le_digits_Z 2 points 1) by lia.
  io_bind. rewrite <- after_app.
  match goal with |- context [send_ints [_; ?a; ?v] ?l] =>
    destruct (send_write_frame a v l) as [r2 ->]; [done|done|] end.
  io_bind. rewrite <- after_app.
  match goal with |- context [send_ints [_; ?a; ?v] ?l] =>
    destruct (send_write_frame a v l) as [r3 ->]; [done|done|] end.
  io_bind. rewrite <- after_app.
  match goal with |- context [send_ints [_; ?a; ?v] ?l] =>
    destruct (send_write_frame a v l) as [r4 ->]; [done|done|] end.
  rewrite <- !after_app. cbn [fst snd]. rewrite <- ?app_assoc. done.
Qed.

(** [NanoVNA_SAA2.setup_sweep] is the banner followed by [sweep_outcome]. *)
Lemma setup_sweep_outcome l start_hz stop_hz points :
  setup_sweep start_hz stop_hz points l
  = match banner start_hz stop_hz with
    | Raise e => (Raise e, l)
    | Ok _ => ((sweep_outcome start_hz stop_hz points).1,
               after (sweep_outcome start_hz stop_hz points).2 l)
    end.
Proof.
  unfold setup_sweep, banner, sweep_outcome.
  io_bind. unfold lift at 1.
  destruct (py_truediv start_hz (PyFloat float_1e6)) as [q1|e]; [|done].
  io_bind. unfold lift at 1.
  destruct (py_truediv stop_hz (PyFloat float_1e6)) as [q2|e]; [|done].
  cbn [mbind result_bind].
  io_bind. unfold lift at 1.
  destruct (sweep_step_hz start_hz stop_hz points) as [step_hz|e]; [|done].
  io_bind. unfold lift at 1.
  destruct (py_int start_hz) as [start|e]; [|done].
  cbn [mbind result_bind]. rewrite to_bytes_fits.
  destruct (fits 8 start) eqn:Hstart; [|done]. cbn [negb].
  io_bind. rewrite (for_each_register (λ i, i)) by lia.
  io_bind. unfold lift at 1.
  destruct (py_int step_hz) as [step|e]; [|done].
  cbn [mbind result_bind]. rewrite to_bytes_fits.
  destruct (fits 8 step) eqn:Hstep; [|done]. cbn [negb].
  io_bind. rewrite (for_each_register (λ i, 0x10 + i)) by lia.
  io_bind. unfold lift at 1. rewrite to_bytes_fits.
  destruct (fits 2 points) eqn:Hpoints; [|cbn [negb fst snd]; by rewrite after_app].
  cbn [negb].
  assert (Hb0 : 0 <= points / 256 ^ 0 mod 256 < 256) by (apply Z.mod_pos_bound; lia).
  assert (Hb1 : 0 <= points / 256 ^ 1 mod 256 < 256) by (apply Z.mod_pos_bound; lia).
  io_bind. unfold lift at 1.
  rewrite (bytes_index_le_digits_Z 2 points 0) by lia.
  io_bind. unfold lift at 1. rewrite bytes_of_write_frame by (done || lia).
  io_bind. unfold lift at 1.
  rewrite (bytes_index_le_digits_Z 2 points 1) by lia.
  io_bind. unfold lift at 1. rewrite bytes_of_write_frame by (done || lia).
  io_bind.
  match goal with |- context [_send_command ?c ?l] => destruct (send_command_ok c l) as [r1 ->] end.
  io_bind. rewrite <- after_app.
  match goal with |- context [_send_command ?c ?l] => destruct (send_command_ok c l) as [r2 ->] end.
  io_bind. unfold lift at 1. rewrite to_bytes_ok by done.
  io_bind. unfold lift at 1.
  rewrite (bytes_index_le_digits_Z 2 1 0) by lia.
  io_bind. unfold lift at 1. rewrite bytes_of_write_frame by done.
  io_bind. unfold lift at 1.
  rewrite (bytes_index_le_digits_Z 2 1 1) by lia.
  io_bind. unfold lift at 1. rewrite bytes_of_write_frame by done.
  io_bind. rewrite <- after_app.
  match goal with |- context [_send_command ?c ?l] => destruct (send_command_ok c l) as [r3 ->] end.
  io_bind. rewrite <- after_app.
  match goal with |- context [_send_command ?c ?l] => destruct (send_command_ok c l) as [r4 ->] end.
  rewrite <- !after_app. cbn [fst snd]. rewrite <- ?app_assoc. done.
Qed.
End SweepOutcome.

(** *** Division of a negative numerator *)





Lemma sweep_step_hz_single start_hz stop_hz points :
  points <= 1 → sweep_step_hz start_hz stop_hz points = Ok (PyInt 0).
Proof. intros Hp. unfold sweep_step_hz. by replace (1 <? points) with false by lia. Qed.

Lemma register_writes_length base n x : length (register_writes base n x) = n.
Proof. unfold register_writes. by rewrite length_fmap, length_seq. Qed.

Lemma frame_fields_write addr v :
  frame_fields (write_frame addr v) = Some (addr mod 256, v mod 256).
Proof. unfold frame_fields, write_frame. cbn. by rewrite !Z_of_byte_of_Z. Qed.

Lemma fits_true n x : fits n x = true ↔ 0 <= x < 256 ^ Z.of_nat n.
Proof. unfold fits. rewrite andb_true_iff, Z.leb_le, Z.ltb_lt. done. Qed.

Lemma fits_false n x : fits n x = false ↔ x < 0 ∨ 256 ^ Z.of_nat n <= x.
Proof. unfold fits. rewrite andb_false_iff, Z.leb_gt, Z.ltb_ge. done. Qed.

Ltac in_list := repeat first [apply list_elem_of_here | apply list_elem_of_further].

Lemma banner_ints start_hz stop_hz :
  0 <= start_hz < 2 ^ 64 → 0 <= stop_hz < 2 ^ 64 →
  banner (PyInt start_hz) (PyInt stop_hz) = Ok ().
Proof.
  intros H1%banner_ok H2%banner_ok. unfold banner.
  destruct (py_truediv (PyInt start_hz) _); [|done].
  destruct (py_truediv (PyInt stop_hz) _); done.
Qed.

Lemma register_writes_fields base n x :
  Forall (λ f, is_Some (frame_fields f)) (register_writes base n x).
Proof.
  unfold register_writes. apply Forall_fmap, Forall_forall. intros i _.
  cbn [compose]. rewrite frame_fields_write. by eexists.
Qed.

(** The frames of [sweep_outcome]: whole registers only. *)
Lemma sweep_outcome_shape start_hz stop_hz points :
  let '(r, frames) := sweep_outcome start_hz stop_hz points in
  length frames ∈ [0; 8; 16; 20]%nat ∧
  Forall (λ f, is_Some (frame_fields f)) frames ∧
  (r = Ok () ↔ length frames = 20%nat).
Proof.
  unfold sweep_outcome.
  destruct (sweep_step_hz _ _ _) as [step_hz|e]; [|split_and!; [in_list|done|done]].
  destruct (py_int start_hz) as [start|e]; [|split_and!; [in_list|done|done]].
  destruct (fits 8 start); cbn [negb]; [|split_and!; [in_list|done|done]].
  destruct (py_int step_hz) as [step|e].
  2:{ rewrite register_writes_length.
      split_and!; [in_list|apply register_writes_fields|done]. }
  destruct (fits 8 step); cbn [negb].
  2:{ rewrite register_writes_length.
      split_and!; [in_list|apply register_writes_fields|done]. }
  destruct (fits 2 points); cbn [negb].
  - rewrite !length_app, !register_writes_length.
    split_and!; [in_list| |done].
    rewrite !Forall_app. split_and!; apply register_writes_fields.
  - rewrite !length_app, !register_writes_length.
    split_and!; [in_list| |done].
    rewrite !Forall_app. split_and!; apply register_writes_fields.
Qed.

(** Whatever its arguments, a [setup_sweep] method writes only WRITE
    frames, and it stops between two registers or not at all: 0, 8, 16 or
    20 frames have been written when it returns, and it returns normally
    exactly when all 20 have. *)
Theorem setup_sweep_whole_registers {T} (l : link T)
    (start_hz stop_hz : pynum) (points : Z) :
  Forall (λ run : io T (),
            ∃ frames, (run l).2 = after frames l ∧
                      written (run l).2 = written l ++ frames ∧
                      length frames ∈ [0; 8; 16; 20]%nat ∧
                      Forall (λ f, is_Some (frame_fields f)) frames ∧
                      ((run l).1 = Ok () ↔ length frames = 20%nat))
         [setup_sweep start_hz stop_hz points;
          setup_sweep_simple start_hz stop_hz points].
Proof.
  pose proof (sweep_outcome_shape start_hz stop_hz points) as Hshape.
  destruct (sweep_outcome start_hz stop_hz points) as [r frames] eqn:Hout.
  destruct Hshape as (Hlen & Hall & Hok).
  repeat constructor.
  - rewrite setup_sweep_outcome, Hout.
    destruct (banner start_hz stop_hz) as [[]|e].
    + exists frames. split_and!; try done. apply written_after.
    + exists []. cbn. rewrite app_nil_r. split_and!; try done. in_list.
  - rewrite setup_sweep_simple_outcome, Hout.
    exists frames. split_and!; try done. apply written_after.
Qed.

(** A [setup_sweep] method writes nothing unless [int(start_hz)] exists and
    fits in 8 bytes: a negative start, one of [2^64] or more, a NaN or an
    infinity makes it raise before the first frame. *)
Theorem setup_sweep_needs_start {T} (l : link T)
    (start_hz stop_hz : pynum) (points : Z) :
  (∀ n, py_int start_hz = Ok n → n < 0 ∨ 2 ^ 64 <= n) →
  (∃ e, setup_sweep start_hz stop_hz points l = (Raise e, l)) ∧
  (∃ e, setup_sweep_simple start_hz stop_hz points l = (Raise e, l)).
Proof.
  intros Hstart.
  assert (∃ e, sweep_outcome start_hz stop_hz points = (Raise e, [])) as [e He].
  { unfold sweep_outcome.
    destruct (sweep_step_hz _ _ _) as [step_hz|e]; [|by eexists].
    destruct (py_int start_hz) as [start|e]; [|by eexists].
    replace (fits 8 start) with false; [by eexists|].
    symmetry. apply fits_false. by apply Hstart. }
  split.
  - rewrite setup_sweep_outcome, He. destruct (banner _ _); by eexists.
  - rewrite setup_sweep_simple_outcome, He. by eexists.
Qed.

Lemma setup_sweep_needs_start_witness :
  (∀ n, py_int (PyInt (-5)) = Ok n → n < 0 ∨ 2 ^ 64 <= n) ∧
  (∃ e, setup_sweep (PyInt (-5)) (PyInt 100000000) 11 idle = (Raise e, idle)) ∧
  (∃ e, setup_sweep_simple (PyInt (-5)) (PyInt 100000000) 11 idle = (Raise e, idle)).
Proof.
  assert (∀ n, py_int (PyInt (-5)) = Ok n → n < 0 ∨ 2 ^ 64 <= n) as Hstart
    by (intros n [= <-]; lia).
  split; [exact Hstart|].
  exact (setup_sweep_needs_start idle (PyInt (-5)) (PyInt 100000000) 11 Hstart).
Defined.

(** [sweep_outcome] on an [int] start that fits, once the step is known. *)
Lemma sweep_outcome_step start_hz stop_hz points step step_hz start :
  sweep_step_hz start_hz stop_hz points = Ok step →
  py_int step = Ok step_hz →
  py_int start_hz = Ok start → 0 <= start < 2 ^ 64 →
  sweep_outcome start_hz stop_hz points =
    if fits 8 step_hz
    then if fits 2 points
         then (Ok (), sweep_frames start step_hz points)
         else (Raise OverflowError,
               register_writes 0x00 8 start ++ register_writes 0x10 8 step_hz)
    else (Raise OverflowError, register_writes 0x00 8 start).
Proof.
  intros Hstep Hint Hstart Hfit. unfold sweep_outcome.
  rewrite Hstep, Hstart, Hint.
  replace (fits 8 start) with true by (symmetry; by apply fits_true).
  cbn [negb]. destruct (fits 8 step_hz); [|done]. cbn [negb].
  destruct (fits 2 points); [|done]. cbn [negb].
  unfold sweep_frames. by rewrite <- app_assoc.
Qed.

(** Both methods on two 64-bit [int] bounds, once the step is known. *)
Lemma setup_sweep_ints {T} (l : link T) start_hz stop_hz points step step_hz :
  0 <= start_hz < 2 ^ 64 → 0 <= stop_hz < 2 ^ 64 →
  sweep_step_hz (PyInt start_hz) (PyInt stop_hz) points = Ok step →
  py_int step = Ok step_hz →
  Forall (λ run : io T (),
            run l =
              if fits 8 step_hz
              then if fits 2 points
                   then (Ok (), after (sweep_frames start_hz step_hz points) l)
                   else (Raise OverflowError,
                         after (register_writes 0x00 8 start_hz ++
                                register_writes 0x10 8 step_hz) l)
              else (Raise OverflowError, after (register_writes 0x00 8 start_hz) l))
         [setup_sweep (PyInt start_hz) (PyInt stop_hz) points;
          setup_sweep_simple (PyInt start_hz) (PyInt stop_hz) points].
Proof.
  intros Hstart Hstop Hstep Hint.
  pose proof (sweep_outcome_step _ _ _ _ _ start_hz Hstep Hint eq_refl Hstart) as Hout.
  repeat constructor.
  - rewrite setup_sweep_outcome, banner_ints, Hout by done.
    by destruct (fits 8 step_hz), (fits 2 points).
  - rewrite setup_sweep_simple_outcome, Hout.
    by destruct (fits 8 step_hz), (fits 2 points).
Qed.



(** With [points] equal to 0 or 1 the bounds are not compared at all: the
    step is 0 and the whole configuration is written, in whatever order the
    two frequencies are. *)
Theorem setup_sweep_single_point {T} (l : link T) (start_hz stop_hz points : Z) :
  0 <= start_hz < 2 ^ 64 → 0 <= stop_hz < 2 ^ 64 → 0 <= points <= 1 →
  Forall (λ run : io T (),
            run l = (Ok (), after (sweep_frames start_hz 0 points) l))
         [setup_sweep (PyInt start_hz) (PyInt stop_hz) points;
          setup_sweep_simple (PyInt start_hz) (PyInt stop_hz) points].
Proof.
  intros Hstart Hstop Hp.
  pose proof (setup_sweep_ints l start_hz stop_hz points (PyInt 0) 0 Hstart Hstop
                (sweep_step_hz_single (PyInt start_hz) (PyInt stop_hz) points ltac:(lia))
                eq_refl) as Hruns.
  change (fits 8 0) with true in Hruns.
  replace (fits 2 points) with true in Hruns; [done|].
  symmetry. apply fits_true. change (256 ^ Z.of_nat 2) with 65536. lia.
Qed.

Lemma setup_sweep_single_point_witness :
  (0 <= 100000000 < 2 ^ 64 ∧ 0 <= 1000000 < 2 ^ 64 ∧ 0 <= 1 <= 1) ∧
  Forall (λ run : io silent (),
            run idle = (Ok (), after (sweep_frames 100000000 0 1) idle))
         [setup_sweep (PyInt 100000000) (PyInt 1000000) 1;
          setup_sweep_simple (PyInt 100000000) (PyInt 1000000) 1].
Proof.
  split; [done|].
  apply (setup_sweep_single_point idle 100000000 1000000 1); done.
Defined.



(** *** Reading the registers back from the frames *)

Lemma byte_of_Z_mod z : byte_of_Z (z mod 256) = byte_of_Z z.
Proof. unfold byte_of_Z. by rewrite Z.mod_mod by lia. Qed.

Lemma register_writes_values base n x k :
  omap (λ f, byte_of_Z ∘ snd <$> frame_fields f)
       ((λ i, write_frame (base + Z.of_nat i) (x / 256 ^ Z.of_nat i mod 256))
          <$> seq k n)
  = le_digits n (x / 256 ^ Z.of_nat k).
Proof.
  revert k; induction n as [|n IH]; intros k; [done|].
  cbn [seq fmap list_fmap omap list_omap le_digits].
  rewrite frame_fields_write. cbn [fmap option_fmap option_map compose snd].
  rewrite !byte_of_Z_mod. f_equal.
  rewrite IH, Nat2Z.inj_succ, Z.pow_succ_r, Z.div_div by lia.
  do 2 f_equal. lia.
Qed.

Lemma register_writes_value base n x :
  0 <= x < 256 ^ Z.of_nat n → frames_value (register_writes base n x) = x.
Proof.
  intros Hx. unfold frames_value, register_writes.
  rewrite register_writes_values. change (256 ^ Z.of_nat 0) with 1.
  rewrite Z.div_1_r. by apply le_value_le_digits.
Qed.

Lemma register_writes_addresses base n x :
  0 <= base → base + Z.of_nat n <= 256 →
  frame_addresses (register_writes base n x)
  = (λ i, base + Z.of_nat i) <$> seq 0 n.
Proof.
  intros Hbase Hn. unfold frame_addresses, register_writes.
  assert (∀ k, (k + n <= Z.to_nat (256 - base))%nat →
    omap (λ f, fst <$> frame_fields f)
         ((λ i, write_frame (base + Z.of_nat i) (x / 256 ^ Z.of_nat i mod 256))
            <$> seq k n)
    = (λ i, base + Z.of_nat i) <$> seq k n) as Hgen.
  { clear Hn. induction n as [|m IH]; intros k Hk; [done|].
    cbn [seq fmap list_fmap omap list_omap].
    rewrite frame_fields_write. cbn [fmap option_fmap option_map fst].
    rewrite Z.mod_small by lia. f_equal. apply IH. lia. }
  apply Hgen. lia.
Qed.

(** The frames of a configuration spell its three values back: the
    addresses are those of the register map, each written once and in
    increasing order, and the value bytes of each register, read
    least-significant byte first, are the start frequency, the step, the
    point count and 1. *)
Lemma sweep_frames_read_back start_hz step_hz points :
  0 <= start_hz < 2 ^ 64 → 0 <= step_hz < 2 ^ 64 → 0 <= points < 2 ^ 16 →
  let frames := sweep_frames start_hz step_hz points in
  frame_addresses frames
    = [0; 1; 2; 3; 4; 5; 6; 7; 16; 17; 18; 19; 20; 21; 22; 23; 32; 33; 34; 35] ∧
  frames_value (take 8 frames) = start_hz ∧
  frames_value (take 8 (drop 8 frames)) = step_hz ∧
  frames_value (take 2 (drop 16 frames)) = points ∧
  frames_value (drop 18 frames) = 1.
Proof.
  intros Hstart Hstep Hpoints frames. subst frames. unfold sweep_frames.
  split.
  { unfold frame_addresses. rewrite !omap_app.
    fold (frame_addresses (register_writes 0 8 start_hz)).
    fold (frame_addresses (register_writes 16 8 step_hz)).
    fold (frame_addresses (register_writes 32 2 points)).
    fold (frame_addresses (register_writes 34 2 1)).
    rewrite !register_writes_addresses by lia. done. }
  set (f1 := register_writes 0 8 start_hz).
  set (f2 := register_writes 16 8 step_hz).
  set (f3 := register_writes 32 2 points).
  set (f4 := register_writes 34 2 1).
  assert (length f1 = 8%nat) as H1 by apply register_writes_length.
  assert (length f2 = 8%nat) as H2 by apply register_writes_length.
  assert (length f3 = 2%nat) as H3 by apply register_writes_length.
  split_and!.
  - rewrite take_app_length' by done. by apply register_writes_value.
  - rewrite drop_app_length' by done. rewrite take_app_length' by done.
    by apply register_writes_value.
  - rewrite (app_assoc f1 f2), drop_app_length' by (rewrite length_app; lia).
    rewrite take_app_length' by done. by apply register_writes_value.
  - rewrite (app_assoc f1 f2), (app_assoc (f1 ++ f2) f3),
      drop_app_length' by (rewrite !length_app; lia).
    by apply register_writes_value.
Qed.

(** For valid bounds, the configuration that a [setup_sweep] method sends
    can be read back from the wire: the 20 frames address the registers
    [0x00..0x07], [0x10..0x17], [0x20..0x23] once each and in this order,
    and their value bytes decode, little-endian, to [start_hz], to the
    integer step, to [points] and to 1. *)
Theorem setup_sweep_read_back {T} (l : link T) (start_hz stop_hz points : Z) :
  0 <= start_hz < 2 ^ 64 → 0 <= stop_hz < 2 ^ 64 → 2 <= points < 2 ^ 16 →
  start_hz < stop_hz → stop_hz - start_hz < 2 ^ 53 →
  Forall (λ run : io T (),
            ∃ frames,
              run l = (Ok (), after frames l) ∧
              written (after frames l) = written l ++ frames ∧
              frame_addresses frames
                = [0; 1; 2; 3; 4; 5; 6; 7; 16; 17; 18; 19; 20; 21; 22; 23;
                   32; 33; 34; 35] ∧
              frames_value (take 8 frames) = start_hz ∧
              frames_value (take 8 (drop 8 frames))
                = (stop_hz - start_hz) / (points - 1) ∧
              frames_value (take 2 (drop 16 frames)) = points ∧
              frames_value (drop 18 frames) = 1)
         [setup_sweep (PyInt start_hz) (PyInt stop_hz) points;
          setup_sweep_simple (PyInt start_hz) (PyInt stop_hz) points].
Proof.
  intros Hstart Hstop Hpoints Hlt Hd.
  destruct (sweep_step_hz_int start_hz stop_hz points) as (step & Hstep & Hint);
    [lia|done|].
  set (step_hz := (stop_hz - start_hz) / (points - 1)) in *.
  assert (0 <= step_hz < 2 ^ 64) as Hs.
  { subst step_hz. split; [apply Z.div_pos; lia|].
    apply Z.div_lt_upper_bound; [lia|].
    change (2 ^ 53) with 9007199254740992 in Hd.
    change (2 ^ 64) with 18446744073709551616. nia. }
  pose proof (setup_sweep_ints l _ _ _ _ _ Hstart Hstop Hstep Hint) as Hruns.
  replace (fits 8 step_hz) with true in Hruns by (symmetry; by apply fits_true).
  replace (fits 2 points) with true in Hruns
    by (symmetry; apply fits_true; change (256 ^ Z.of_nat 2) with (2 ^ 16); lia).
  destruct (sweep_frames_read_back start_hz step_hz points)
    as (Ha & H1 & H2 & H3 & H4); [done|done|lia|].
  eapply Forall_impl; [exact Hruns|].
  intros run Hrun. exists (sweep_frames start_hz step_hz points).
  split_and!; try done. apply written_after.
Qed.

Lemma setup_sweep_read_back_witness :
  (0 <= 1000000 < 2 ^ 64 ∧ 0 <= 100000000 < 2 ^ 64 ∧ 2 <= 11 < 2 ^ 16 ∧
   1000000 < 100000000 ∧ 100000000 - 1000000 < 2 ^ 53) ∧
  Forall (λ run : io silent (),
            ∃ frames,
              run idle = (Ok (), after frames idle) ∧
              written (after frames idle) = written idle ++ frames ∧
              frame_addresses frames
                = [0; 1; 2; 3; 4; 5; 6; 7; 16; 17; 18; 19; 20; 21; 22; 23;
                   32; 33; 34; 35] ∧
              frames_value (take 8 frames) = 1000000 ∧
              frames_value (take 8 (drop 8 frames))
                = (100000000 - 1000000) / (11 - 1) ∧
              frames_value (take 2 (drop 16 frames)) = 11 ∧
              frames_value (drop 18 frames) = 1)
         [setup_sweep (PyInt 1000000) (PyInt 100000000) 11;
          setup_sweep_simple (PyInt 1000000) (PyInt 100000000) 11].
Proof.
  split; [done|].
  apply (setup_sweep_read_back idle 1000000 100000000 11); done.
Defined.

(** ** What the two record parsers accept and what they look at *)

Section ParserFacts.
Context {ops : PyComplex}.

Lemma slice_length_gen (b : list byte) lo hi :
  length (slice b lo hi) = ((hi - lo) `min` (length b - lo))%nat.
Proof. unfold slice. by rewrite length_take, length_drop. Qed.

(** [_parse_fifo_data] refuses every byte string that is not 32 bytes long,
    whereas [_parse_data], which has no length test, accepts every byte
    string of 16 bytes or more and refuses the shorter ones. *)
Theorem parsers_refuse (data : list byte) :
  (_parse_fifo_data data = None ↔ length data ≠ 32%nat) ∧
  (_parse_data data = None ↔ (length data < 16)%nat).
Proof.
  split; [apply parse_fifo_data_None|].
  split.
  - intros Hnone. destruct (decide (length data < 16)%nat) as [|Hge]; [done|].
    destruct (parse_data_16 data) as (m & _ & Hm & _); [lia|congruence].
  - intros Hshort. unfold _parse_data, parse_data_body.
    destruct (unpack_i32 (slice data 0 4)) as [fwd0_re|]; [|done].
    destruct (unpack_i32 (slice data 4 8)) as [fwd0_im|]; [|done].
    destruct (unpack_i32 (slice data 8 12)) as [rev0_re|]; [|done].
    cbn [mbind result_bind]. unfold unpack_i32 at 1.
    replace (length (slice data 12 16) =? 4)%nat with false; [done|].
    symmetry. apply Nat.eqb_neq. rewrite slice_length_gen. lia.
Qed.

Lemma uint_at_take (b : list byte) k off n :
  (off + n <= k)%nat → uint_at (take k b) off n = uint_at b off n.
Proof.
  revert off; induction n as [|n IH]; intros off Hk; [done|].
  cbn [uint_at]. unfold byte_at. rewrite lookup_take_lt by lia.
  by rewrite IH by lia.
Qed.

Lemma int32_at_take (b : list byte) k off :
  (off + 4 <= k)%nat → int32_at (take k b) off = int32_at b off.
Proof. intros Hk. unfold int32_at. by rewrite uint_at_take. Qed.

(** The parsers never look at the reserved bytes: two records of 32 bytes
    that agree on their first 26 bytes give the same sample, and
    [_parse_data] gives the same measurement for two byte strings that
    agree on their first 16 bytes (it ignores the second reverse channel
    and the frequency index). *)
Theorem parsers_ignore_reserved (r1 r2 : list byte) :
  (length r1 = 32%nat → length r2 = 32%nat → take 26 r1 = take 26 r2 →
   _parse_fifo_data r1 = _parse_fifo_data r2) ∧
  ((16 <= length r1)%nat → (16 <= length r2)%nat → take 16 r1 = take 16 r2 →
   _parse_data r1 = _parse_data r2).
Proof.
  split.
  - intros H1 H2 Heq. unfold _parse_fifo_data.
    rewrite !parse_fifo_body_32 by done.
    assert (∀ off, (off + 4 <= 26)%nat → int32_at r1 off = int32_at r2 off) as Hi.
    { intros off Hoff. rewrite <- (int32_at_take r1 26), <- (int32_at_take r2 26) by done.
      by rewrite Heq. }
    assert (uint16_at r1 24 = uint16_at r2 24) as Hu.
    { unfold uint16_at.
      rewrite <- (uint_at_take r1 26 24 2), <- (uint_at_take r2 26 24 2) by done.
      by rewrite Heq. }
    rewrite !Hi, Hu by lia. done.
  - intros H1 H2 Heq. unfold _parse_data.
    rewrite !parse_data_body_32 by done.
    assert (∀ off, (off + 4 <= 16)%nat → int32_at r1 off = int32_at r2 off) as Hi.
    { intros off Hoff. rewrite <- (int32_at_take r1 16), <- (int32_at_take r2 16) by done.
      by rewrite Heq. }
    rewrite !Hi by lia. done.
Qed.
End ParserFacts.

Lemma parsers_ignore_reserved_witness :
  _parse_fifo_data (ops:=ieee_complex) record_3_4
    = _parse_fifo_data (take 26 record_3_4 ++ replicate 6 xff) ∧
  _parse_data (ops:=ieee_complex) record_3_4 = _parse_data (take 16 record_3_4).
Proof.
  pose proof (parsers_ignore_reserved (ops:=ieee_complex) record_3_4
                (take 26 record_3_4 ++ replicate 6 xff)) as [Hfifo _].
  pose proof (parsers_ignore_reserved (ops:=ieee_complex) record_3_4
                (take 16 record_3_4)) as [_ Hdata].
  split; [apply Hfifo|apply Hdata]; first [reflexivity | cbn; lia].
Defined.

(** ** Decoding what was encoded *)

Lemma uint_at_app_r (a b : list byte) off n :
  uint_at (a ++ b) (length a + off) n = uint_at b off n.
Proof.
  revert off; induction n as [|n IH]; intros off; [done|].
  cbn [uint_at]. unfold byte_at.
  rewrite lookup_app_r by lia. replace (length a + off - length a)%nat with off by lia.
  f_equal. f_equal. rewrite <- Nat.add_succ_r. apply IH.
Qed.

Lemma uint_at_le_digits n x (rest : list byte) :
  0 <= x < 256 ^ Z.of_nat n → uint_at (le_digits n x ++ rest) 0 n = x.
Proof.
  intros Hx.
  rewrite <- (le_value_slice _ 0 n) by (rewrite length_app, le_digits_length; lia).
  unfold slice. rewrite drop_0. replace (0 + n - 0)%nat with n by lia.
  rewrite take_app_length' by (by rewrite le_digits_length).
  by apply le_value_le_digits.
Qed.

(** A field of 4 bytes holding the two's complement of [x]. *)
Lemma int32_at_field (before rest : list byte) x off :
  length before = off → - 2 ^ 31 <= x < 2 ^ 31 →
  int32_at (before ++ le_digits 4 (x mod 2 ^ 32) ++ rest) off = x.
Proof.
  intros <- Hx. unfold int32_at.
  rewrite <- (Nat.add_0_r (length before)), uint_at_app_r.
  rewrite uint_at_le_digits by (apply Z.mod_pos_bound; done).
  change (2 ^ 31) with 2147483648 in *. change (2 ^ 32) with 4294967296 in *.
  destruct (Z.le_gt_cases 0 x).
  - rewrite Z.mod_small by lia. by replace (x <? 2147483648) with true by lia.
  - replace (x mod 4294967296) with (x + 4294967296).
    + replace (x + 4294967296 <? 2147483648) with false by lia. lia.
    + apply Z.mod_unique with (q := -1); lia.
Qed.

Section RoundTrip.
Context {ops : PyComplex}.

(** A record built from six 32-bit values and a 16-bit index decodes to
    these very values: the sample carries the index, the modulus of the
    forward reference, and the two reverse values calibrated by it; no field
    overlaps another and negative values come back negative. *)
Theorem parse_encoded_record
    (fwd_re fwd_im rev0_re rev0_im rev1_re rev1_im index : Z) (reserved : list byte) :
  Forall (λ x, - 2 ^ 31 <= x < 2 ^ 31)
         [fwd_re; fwd_im; rev0_re; rev0_im; rev1_re; rev1_im] →
  0 <= index < 2 ^ 16 → length reserved = 6%nat →
  let rec := encode_record fwd_re fwd_im rev0_re rev0_im rev1_re rev1_im
                           index reserved in
  ∃ p, _parse_fifo_data rec = Some p ∧
       freq_index p = index ∧
       raw_reference p = complex_abs (complex_of_ints fwd_re fwd_im) ∧
       calibrated (complex_of_ints fwd_re fwd_im)
                  (complex_of_ints rev0_re rev0_im)
                  (complex_of_ints rev1_re rev1_im) = Ok (s11 p, s21 p).
Proof.
  intros Hfields Hindex Hres rec.
  repeat match goal with
         | H : Forall _ (_ :: _) |- _ => apply Forall_cons in H as [? H]
         end.
  assert (length rec = 32%nat) as Hlen.
  { subst rec. unfold encode_record. rewrite !length_app, !le_digits_length. lia. }
  destruct (parse_fifo_data_32 rec Hlen) as (p & _ & Hp & Hidx & Href & Hcal).
  assert (int32_at rec 0 = fwd_re) as E0.
  { subst rec. unfold encode_record. by apply (int32_at_field []). }
  assert (int32_at rec 4 = fwd_im) as E4.
  { subst rec. unfold encode_record.
    by apply (int32_at_field (le_digits 4 _)). }
  assert (int32_at rec 8 = rev0_re) as E8.
  { subst rec. unfold encode_record.
    rewrite (app_assoc (le_digits 4 (fwd_re mod _))).
    apply int32_at_field; [by rewrite length_app, !le_digits_length|done]. }
  assert (int32_at rec 12 = rev0_im) as E12.
  { subst rec. unfold encode_record.
    rewrite (app_assoc (le_digits 4 (fwd_re mod _))), (app_assoc (_ ++ _)).
    apply int32_at_field; [by rewrite !length_app, !le_digits_length|done]. }
  assert (int32_at rec 16 = rev1_re) as E16.
  { subst rec. unfold encode_record.
    rewrite (app_assoc (le_digits 4 (fwd_re mod _))), (app_assoc (_ ++ _)),
      (app_assoc (_ ++ _)).
    apply int32_at_field; [by rewrite !length_app, !le_digits_length|done]. }
  assert (int32_at rec 20 = rev1_im) as E20.
  { subst rec. unfold encode_record.
    rewrite (app_assoc (le_digits 4 (fwd_re mod _))), (app_assoc (_ ++ _)),
      (app_assoc (_ ++ _)), (app_assoc (_ ++ _)).
    apply int32_at_field; [by rewrite !length_app, !le_digits_length|done]. }
  assert (uint16_at rec 24 = index) as E24.
  { subst rec. unfold encode_record, uint16_at.
    rewrite (app_assoc (le_digits 4 (fwd_re mod _))), (app_assoc (_ ++ _)),
      (app_assoc (_ ++ _)), (app_assoc (_ ++ _)), (app_assoc (_ ++ _)).
    set (before := (_ ++ le_digits 4 (rev1_im mod _))).
    assert (length before = 24%nat) as Hb
      by (subst before; by rewrite !length_app, !le_digits_length).
    rewrite <- Hb, <- (Nat.add_0_r (length before)), uint_at_app_r.
    by apply uint_at_le_digits. }
  rewrite E0, E4, E8, E12, E16, E20 in Hcal. rewrite E0, E4 in Href.
  exists p. by rewrite <- E24.
Qed.

End RoundTrip.

Lemma parse_encoded_record_witness :
  (Forall (λ x, - 2 ^ 31 <= x < 2 ^ 31) [3; 4; -6; 8; 0; 5] ∧
   0 <= 7 < 2 ^ 16 ∧ length (replicate 6 x00) = 6%nat) ∧
  ∃ p, _parse_fifo_data (ops:=ieee_complex) (encode_record 3 4 (-6) 8 0 5 7 (replicate 6 x00))
         = Some p ∧
       freq_index p = 7 ∧
       raw_reference p = complex_abs (complex_of_ints 3 4) ∧
       calibrated (complex_of_ints 3 4) (complex_of_ints (-6) 8) (complex_of_ints 0 5)
         = Ok (s11 p, s21 p).
Proof.
  assert (Forall (λ x, - 2 ^ 31 <= x < 2 ^ 31) [3; 4; -6; 8; 0; 5]) as Hf
    by (repeat constructor; done).
  split; [done|].
  by apply (parse_encoded_record (ops:=ieee_complex) 3 4 (-6) 8 0 5 7 (replicate 6 x00)).
Defined.


(** ** Decoding a buffer made of several blocks *)

Lemma complete_chunks_cons (c rest : list byte) :
  length c = 32%nat → complete_chunks (c ++ rest) = c :: complete_chunks rest.
Proof.
  intros Hc. unfold complete_chunks. rewrite length_app, Hc.
  replace ((32 + length rest) / 32)%nat with (S (length rest / 32)).
  2:{ replace (32 + length rest)%nat with (1 * 32 + length rest)%nat by lia.
      rewrite Nat.div_add_l by lia. lia. }
  cbn [seq fmap list_fmap]. f_equal.
  - unfold chunk. rewrite Nat.mul_0_r, drop_0. by rewrite take_app_length' by done.
  - rewrite <- fmap_S_seq, <- list_fmap_compose. apply list_fmap_ext.
    intros i k _. cbn [compose]. unfold chunk. f_equal.
    replace (32 * S k)%nat with (length c + 32 * k)%nat by lia.
    by rewrite drop_app_add.
Qed.

Lemma complete_chunks_app (a b : list byte) :
  (length a mod 32 = 0)%nat →
  complete_chunks (a ++ b) = complete_chunks a ++ complete_chunks b.
Proof.
  intros Hmod.
  assert (∃ n, length a = (32 * n)%nat) as [n Hn].
  { exists (length a / 32)%nat. pose proof (Nat.div_mod_eq (length a) 32). lia. }
  clear Hmod. revert a Hn. induction n as [|n IH]; intros a Hn.
  - destruct a; [done|cbn in Hn; lia].
  - assert (length (take 32 a) = 32%nat) as Ht by (rewrite length_take; lia).
    assert (length (drop 32 a) = (32 * n)%nat) as Hd by (rewrite length_drop; lia).
    rewrite <- (take_drop 32 a).
    generalize dependent (take 32 a). generalize dependent (drop 32 a).
    intros a2 Ha2 a1 Ha1. rewrite <- app_assoc.
    rewrite (complete_chunks_cons a1 (a2 ++ b)), (complete_chunks_cons a1 a2) by done.
    by rewrite IH.
Qed.

Section DecodeBlocks.
Context {ops : PyComplex}.

Lemma decode_points_length (data : list byte) :
  length (decode_points data) = (length data / 32)%nat.
Proof.
  unfold decode_points. rewrite decode_with_spec.
  rewrite <- (complete_chunks_length data).
  symmetry. eapply Forall2_length, omap_total.
  intros c Hc%complete_chunk_length.
  destruct (parse_fifo_data_32 c Hc) as (p & _ & Hp & _). eauto.
Qed.

Lemma decode_measurements_length (data : list byte) :
  length (decode_measurements data) = (length data / 32)%nat.
Proof.
  unfold decode_measurements. rewrite decode_with_spec.
  rewrite <- (complete_chunks_length data).
  symmetry. eapply Forall2_length, omap_total.
  intros c Hc%complete_chunk_length.
  destruct (parse_data_16 c) as (m & _ & Hm & _); [lia|eauto].
Qed.

(** Decoding distributes over a concatenation whose first part is made of
    whole records: the points and the measurements of the joined buffer are
    those of the first part followed by those of the second. *)
Theorem decode_blocks (a b : list byte) :
  (length a mod 32 = 0)%nat →
  decode_points (a ++ b) = decode_points a ++ decode_points b ∧
  decode_measurements (a ++ b) = decode_measurements a ++ decode_measurements b.
Proof.
  intros Hmod. unfold decode_points, decode_measurements.
  rewrite !decode_with_spec, complete_chunks_app by done.
  by rewrite !omap_app.
Qed.

(** Whatever the lengths of two blocks, the records that straddle them are
    only found when the blocks are joined first: decoding the accumulated
    buffer never gives fewer samples than decoding the blocks one by
    one. *)
Theorem decode_joined_blocks (a b : list byte) :
  (length (decode_points a) + length (decode_points b)
   <= length (decode_points (a ++ b)))%nat ∧
  (length (decode_measurements a) + length (decode_measurements b)
   <= length (decode_measurements (a ++ b)))%nat.
Proof.
  rewrite !decode_points_length, !decode_measurements_length, length_app.
  pose proof (Nat.div_mod_eq (length a) 32).
  pose proof (Nat.div_mod_eq (length b) 32).
  split; apply Nat.div_le_lower_bound; lia.
Qed.
End DecodeBlocks.

Lemma decode_blocks_witness :
  (length record_3_4 mod 32 = 0)%nat ∧
  decode_points (ops:=ieee_complex) (record_3_4 ++ record_zero_reference)
    = decode_points record_3_4 ++ decode_points record_zero_reference ∧
  decode_measurements (ops:=ieee_complex) (record_3_4 ++ record_zero_reference)
    = decode_measurements record_3_4 ++ decode_measurements record_zero_reference.
Proof.
  split; [reflexivity|].
  apply (decode_blocks (ops:=ieee_complex) record_3_4 record_zero_reference).
  reflexivity.
Defined.

(** ** The captures as a whole *)

Lemma py_take_length {A} (n : Z) (xs : list A) :
  Z.of_nat (length (py_take n xs)) =
  if 0 <=? n then Z.min n (Z.of_nat (length xs))
  else Z.max 0 (Z.of_nat (length xs) + n).
Proof.
  unfold py_take. destruct (0 <=? n) eqn:Hn; rewrite length_take; lia.
Qed.

Lemma py_take_prefix {A} (n : Z) (xs : list A) :
  py_take n xs = take (length (py_take n xs)) xs.
Proof.
  assert (∀ k, take k xs = take (length (take k xs)) xs) as Htake.
  { intros k. rewrite length_take. destruct (decide (k <= length xs)%nat).
    - f_equal. lia.
    - rewrite Nat.min_r by lia. by rewrite !take_ge by lia. }
  unfold py_take. destruct (0 <=? n); apply Htake.
Qed.

Lemma capture_frequencies_length {A} (pts : list A) :
  length (capture_frequencies pts) = length pts.
Proof.
  destruct pts; [done|]. unfold capture_frequencies. by rewrite linspace_length.
Qed.

Lemma sent_readfifo (reads : list exchanged) :
  Forall (λ r, sent r = readfifo_256) reads →
  sent <$> reads = replicate (length reads) readfifo_256.
Proof.
  induction 1 as [|r reads Hr _ IH]; [done|]. cbn. by rewrite Hr, IH.
Qed.

Section CaptureRuns.
Context {ops : PyComplex} {T : transport}.
Implicit Types (l : link T) (reads : list exchanged).

(** With replies of at most [B] bytes, [n] attempts add at most [n * B]
    bytes to the buffer. *)
Lemma read_blocks_bound B n expected_points acc l :
  (∀ d cmd, (length (exchange T d cmd).2 <= B)%nat) →
  ∃ l' data, read_blocks n expected_points acc l = (Ok data, l') ∧
             (length data <= length acc + n * B)%nat.
Proof.
  intros HB. revert acc l. induction n as [|n IH]; intros acc l.
  { exists l, acc. split; [done|lia]. }
  cbn [read_blocks]. io_bind.
  destruct (send_readfifo l) as (l1 & r & -> & Hsent & Hrecv & Hwire).
  pose proof (HB (dev l) readfifo_256) as Hr. rewrite Hrecv in Hr.
  destruct (received r) as [|b bs] eqn:Hrb.
  - destruct (IH acc l1) as (l' & data & -> & Hlen).
    exists l', data. split; [done|lia].
  - destruct (Z.of_nat (length (acc ++ b :: bs)) >=? expected_points * 32).
    + eexists _, _. split; [done|]. rewrite length_app. lia.
    + destruct (IH (acc ++ b :: bs) l1) as (l' & data & -> & Hlen).
      eexists _, _. split; [done|]. rewrite length_app in Hlen. lia.
Qed.

Lemma capture_bytes_run l (expected_points : Z) :
  ∃ l' clear reads,
    capture_bytes expected_points l = (Ok (received_bytes reads), l') ∧
    wire l' = wire l ++ clear :: reads ∧
    sent clear = [x20; x30; x00] ∧
    Forall (λ r, sent r = readfifo_256) reads ∧
    (length reads <= 5)%nat ∧
    (length reads = 5%nat ∨
     expected_points * 32 <= Z.of_nat (length (received_bytes reads))) ∧
    (∀ B, (∀ d cmd, (length (exchange T d cmd).2 <= B)%nat) →
          (length (received_bytes reads) <= 5 * B)%nat).
Proof.
  unfold capture_bytes, clear_fifo, send_ints.
  io_bind. io_bind. io_bind. unfold lift at 1.
  change (bytes_of_ints [32; 48; 0]) with (Ok (A:=list byte) [x20; x30; x00]).
  unfold _send_command at 1.
  destruct (exchange T (dev l) [x20; x30; x00]) as [d reply] eqn:Hx.
  unfold mret at 1, io_ret at 1.
  set (l1 := {| dev := d;
                wire := wire l ++ [{| sent := [x20; x30; x00]; received := reply |}] |}).
  destruct (read_blocks_spec 5 expected_points [] l1)
    as (l' & reads & Hrun & Hw & Hall & Hlen & Hstop & _).
  rewrite Hrun.
  exists l', {| sent := [x20; x30; x00]; received := reply |}, reads.
  cbn [app] in *. split_and!; try done.
  - rewrite Hw. subst l1. cbn [wire]. by rewrite <- app_assoc.
  - intros B HB.
    destruct (read_blocks_bound B 5 expected_points [] l1 HB) as (l2 & data & Hrun2 & Hb).
    rewrite Hrun in Hrun2. simplify_eq. cbn in Hb. lia.
Qed.

(** [capture_data_smart] never raises, whatever the device answers and
    whatever [expected_points] is.  It writes the clearing frame and then
    only READFIFO frames, at most five.  The points are the first decoded
    records of the bytes received, in their order of arrival, and there is
    one frequency per point.  For [expected_points >= 0] their number is
    the smaller of [expected_points] and the number of whole records
    received; a negative [expected_points] is not refused but drops that
    many records from the end. *)
Theorem capture_smart_counts l (expected_points : Z) :
  ∃ l' clear reads freqs pts,
    capture_data_smart expected_points l = (Ok (freqs, pts), l') ∧
    wire l' = wire l ++ clear :: reads ∧
    sent clear = [x20; x30; x00] ∧
    Forall (λ r, sent r = readfifo_256) reads ∧
    (length reads <= 5)%nat ∧
    pts = take (length pts) (decode_points (received_bytes reads)) ∧
    length freqs = length pts ∧
    Z.of_nat (length pts) =
      (let k := Z.of_nat (length (received_bytes reads) / 32) in
       if 0 <=? expected_points then Z.min expected_points k
       else Z.max 0 (k + expected_points)).
Proof.
  destruct (capture_bytes_run l expected_points)
    as (l' & clear & reads & Hrun & Hw & Hclear & Hall & Hlen & _).
  unfold capture_data_smart. io_bind. rewrite Hrun.
  eexists l', clear, reads, _, _. split; [done|]. split_and!; try done.
  - apply py_take_prefix.
  - apply capture_frequencies_length.
  - by rewrite py_take_length, decode_points_length.
Qed.

(** When the device never hands over more than the 256 bytes that a
    READFIFO asks for, five reads give at most 1280 bytes:
    [capture_data_smart] returns at most 40 points, and a request for more
    than 40 always costs the five reads. *)
Theorem capture_smart_block_limit l (expected_points : Z) :
  (∀ d cmd, (length (exchange T d cmd).2 <= 256)%nat) →
  ∃ l' reads freqs pts,
    capture_data_smart expected_points l = (Ok (freqs, pts), l') ∧
    written l' = written l ++ [x20; x30; x00] :: replicate (length reads) readfifo_256 ∧
    (length pts <= 40)%nat ∧
    (40 < expected_points → length reads = 5%nat).
Proof.
  intros HB.
  destruct (capture_bytes_run l expected_points)
    as (l' & clear & reads & Hrun & Hw & Hclear & Hall & Hlen & Hstop & Hbound).
  specialize (Hbound 256%nat HB).
  unfold capture_data_smart. io_bind. rewrite Hrun.
  eexists l', reads, _, _. split; [done|]. split_and!.
  - unfold written. rewrite Hw, fmap_app, fmap_cons, Hclear.
    by rewrite (sent_readfifo reads).
  - rewrite py_take_prefix, length_take, decode_points_length.
    assert (length (received_bytes reads) / 32 <= 40)%nat
      by (apply Nat.Div0.div_le_upper_bound; lia).
    lia.
  - intros He. destruct Hstop as [?|Hs]; [done|lia].
Qed.

Lemma capture_data_run l (points : Z) :
  ∃ l' clear read,
    capture_data points l
      = (Ok (py_take points (decode_measurements (received read))), l') ∧
    wire l' = wire l ++ [clear; read] ∧
    sent clear = [x20; x30; x00] ∧
    sent read = [x18; x30; x00; x04] ∧
    ∃ d, received read = (exchange T d [x18; x30; x00; x04]).2.
Proof.
  unfold capture_data, send_ints.
  io_bind. io_bind. unfold lift at 1.
  change (bytes_of_ints [32; 48; 0]) with (Ok (A:=list byte) [x20; x30; x00]).
  unfold _send_command at 1.
  destruct (exchange T (dev l) [x20; x30; x00]) as [d1 reply1].
  io_bind. io_bind. unfold lift at 1.
  change (bytes_of_ints [24; 48; 0; 4]) with (Ok (A:=list byte) [x18; x30; x00; x04]).
  unfold _send_command at 1. cbn [dev wire].
  destruct (exchange T d1 [x18; x30; x00; x04]) as [d2 reply2] eqn:Hx.
  eexists _, {| sent := [x20; x30; x00]; received := reply1 |},
             {| sent := [x18; x30; x00; x04]; received := reply2 |}.
  split; [done|]. cbn [wire sent received]. split_and!; try done.
  - by rewrite <- app_assoc.
  - exists d1. by rewrite Hx.
Qed.

(** [NanoVNA_Simple.capture_data] never raises.  It writes two frames, the
    clearing frame and one READFIFO for 1024 bytes, and decodes the reply
    to the second only: the measurements are the first decoded records of
    that reply, at most [points] of them for [points >= 0], while a
    negative [points] drops that many from the end. *)
Theorem capture_data_single_read l (points : Z) :
  ∃ l' clear read ms,
    capture_data points l = (Ok ms, l') ∧
    wire l' = wire l ++ [clear; read] ∧
    sent clear = [x20; x30; x00] ∧
    sent read = [x18; x30; x00; x04] ∧
    ms = take (length ms) (decode_measurements (received read)) ∧
    Z.of_nat (length ms) =
      (let k := Z.of_nat (length (received read) / 32) in
       if 0 <=? points then Z.min points k else Z.max 0 (k + points)).
Proof.
  destruct (capture_data_run l points)
    as (l' & clear & read & Hrun & Hw & Hclear & Hread & _).
  eexists l', clear, read, _. split; [done|]. split_and!; try done.
  - apply py_take_prefix.
  - by rewrite py_take_length, decode_measurements_length.
Qed.

(** A device that honours the 1024 bytes of the single READFIFO gives
    [capture_data] at most 32 measurements, however many points were
    asked for. *)
Theorem capture_data_block_limit l (points : Z) :
  (∀ d cmd, (length (exchange T d cmd).2 <= 1024)%nat) →
  ∃ l' ms, capture_data points l = (Ok ms, l') ∧ (length ms <= 32)%nat.
Proof.
  intros HB.
  destruct (capture_data_run l points)
    as (l' & clear & read & Hrun & _ & _ & _ & d & Hd).
  eexists l', _. split; [done|].
  rewrite py_take_prefix, length_take, decode_measurements_length.
  pose proof (HB d [x18; x30; x00; x04]) as Hr. rewrite <- Hd in Hr.
  assert (length (received read) / 32 <= 32)%nat
    by (apply Nat.Div0.div_le_upper_bound; lia).
  lia.
Qed.
End CaptureRuns.

Lemma capture_smart_block_limit_witness :
  (∀ d cmd, (length (exchange (steady (replicate 256 x00)) d cmd).2 <= 256)%nat) ∧
  ∃ l' (reads : list exchanged) freqs pts,
    capture_data_smart (ops:=ieee_complex) 101 (fresh (replicate 256 x00))
      = (Ok (freqs, pts), l') ∧
    written l' = written (fresh (replicate 256 x00))
                 ++ [x20; x30; x00] :: replicate (length reads) readfifo_256 ∧
    (length pts <= 40)%nat ∧
    (40 < 101 → length reads = 5%nat).
Proof.
  assert (∀ d cmd, (length (exchange (steady (replicate 256 x00)) d cmd).2 <= 256)%nat)
    as HB by (intros d cmd; cbn [exchange steady snd]; by rewrite length_replicate).
  split; [exact HB|].
  exact (capture_smart_block_limit (ops:=ieee_complex) (fresh (replicate 256 x00)) 101 HB).
Defined.

Lemma capture_data_block_limit_witness :
  (∀ d cmd, (length (exchange (steady (replicate 1024 x00)) d cmd).2 <= 1024)%nat) ∧
  ∃ l' ms,
    capture_data (ops:=ieee_complex) 101 (fresh (replicate 1024 x00)) = (Ok ms, l') ∧
    (length ms <= 32)%nat.
Proof.
  assert (∀ d cmd, (length (exchange (steady (replicate 1024 x00)) d cmd).2 <= 1024)%nat)
    as HB by (intros d cmd; cbn [exchange steady snd]; by rewrite length_replicate).
  split; [exact HB|].
  exact (capture_data_block_limit (ops:=ieee_complex) (fresh (replicate 1024 x00)) 101 HB).
Defined.

(** ** One pass through the menus *)

Section Menus.
Context {ops : PyComplex} {T : transport}.
Implicit Types (l : link T).

(** Option 1 of [nanovna.main] never raises.  On the wire it leaves the 20
    frames of the sweep from 1 MHz in steps of 9.9 MHz over 11 points, the
    clearing frame, and between one and five READFIFO frames; it returns at
    most 11 points, one frequency per point, and none exactly when fewer
    than 32 bytes came back. *)
Theorem main_option_1_run l :
  ∃ l' clear reads freqs pts,
    main_option_1 l = (Ok (freqs, pts), l') ∧
    wire l' = wire (after (sweep_frames 1000000 9900000 11) l) ++ clear :: reads ∧
    written l' = written l ++ sweep_frames 1000000 9900000 11
                 ++ [x20; x30; x00] :: replicate (length reads) readfifo_256 ∧
    (1 <= length reads <= 5)%nat ∧
    (length pts <= 11)%nat ∧
    length freqs = length pts ∧
    (pts = [] ↔ (length (received_bytes reads) < 32)%nat).
Proof.
  unfold main_option_1. io_bind.
  destruct (setup_sweep_run l (PyFloat float_1e6) (PyFloat float_100e6) 11
              (PyFloat (S754_finite false 5315022028800000 (-29))) 9900000)
    with (start := 1000000) as [Hrun _]; try done.
  rewrite Hrun. clear Hrun.
  set (l1 := after (sweep_frames 1000000 9900000 11) l).
  destruct (capture_bytes_run l1 11)
    as (l' & clear & reads & Hrun & Hw & Hclear & Hall & Hlen & Hstop & _).
  unfold capture_data_smart. io_bind. rewrite Hrun.
  eexists l', clear, reads, _, _. split; [done|].
  assert (Z.of_nat (length (py_take 11 (decode_points (received_bytes reads))))
          = Z.min 11 (Z.of_nat (length (received_bytes reads) / 32))) as Hpts
    by (by rewrite py_take_length, decode_points_length).
  split_and!; try done.
  - unfold written. rewrite Hw, fmap_app, fmap_cons, Hclear.
    rewrite (sent_readfifo reads) by done.
    subst l1. fold (written (after (sweep_frames 1000000 9900000 11) l)).
    by rewrite written_after, <- app_assoc.
  - destruct reads; [|cbn; lia]. destruct Hstop as [?|Hs]; [done|].
    cbn in Hs. lia.
  - lia.
  - apply capture_frequencies_length.
  - pose proof (Nat.div_mod_eq (length (received_bytes reads)) 32) as Hdiv.
    pose proof (Nat.mod_upper_bound (length (received_bytes reads)) 32) as H0.
    split.
    + intros Hnil. apply (f_equal length) in Hnil. cbn [length] in Hnil.
      specialize (H0 ltac:(lia)). lia.
    + intros Hlt. apply length_zero_iff_nil.
      rewrite Nat.div_small in Hpts by done. lia.
Qed.

Lemma float_of_small_int z :
  1 <= z <= 1000 → ∃ f, float_of_int z = Ok f ∧ is_zero_float f = false.
Proof.
  intros Hz.
  assert (forallb (λ n, match float_of_int (Z.of_nat n) with
                        | Ok f => negb (is_zero_float f)
                        | Raise _ => false
                        end) (seq 1 1000) = true) as Hall
    by (vm_compute; reflexivity).
  rewrite forallb_forall in Hall.
  specialize (Hall (Z.to_nat z)). rewrite Z2Nat.id in Hall by lia.
  destruct (float_of_int z) as [f|e].
  - exists f. split; [done|]. apply negb_true_iff, Hall, in_seq. lia.
  - discriminate Hall. apply in_seq. lia.
Qed.

(** The validation of [nanovna_original.main] lets a start frequency that
    is not a number through, since [nan >= stop] is false: the request is
    accepted and [setup_sweep] raises [ValueError] at [int(start_hz)],
    before anything is written.  A start frequency of minus infinity
    likewise ends in [OverflowError], unless the stop frequency is minus
    infinity too and the request is refused. *)
Theorem measure_once_not_a_number l (stop_mhz : spec_float) (points : Z) :
  2 <= points <= 1001 →
  measure_once (PyFloat S754_nan) (PyFloat stop_mhz) points l
    = (Raise ValueError, l) ∧
  measure_once (PyFloat (S754_infinity true)) (PyFloat stop_mhz) points l
    = (if is_infinity_neg stop_mhz then Ok None else Raise OverflowError, l).
Proof.
  intros Hp.
  destruct (float_of_small_int (points - 1)) as (f & Hf & Hnz); [lia|].
  assert (∀ start_hz stop_hz : spec_float,
            ∃ q, sweep_step_hz (PyFloat start_hz) (PyFloat stop_hz) points
                 = Ok (PyFloat q)) as Hstep.
  { intros start_hz stop_hz. unfold sweep_step_hz.
    replace (1 <? points) with true by lia.
    cbn [py_sub as_float mbind result_bind py_truediv]. rewrite Hf.
    cbn [mbind result_bind]. rewrite Hnz. eauto. }
  replace ((points <? 2) || (1001 <? points)) with false in * by lia.
  split.
  - unfold measure_once.
    replace (py_ge (PyFloat S754_nan) (PyFloat stop_mhz)) with false
      by (by destruct stop_mhz).
    replace ((points <? 2) || (1001 <? points)) with false by lia.
    io_bind. unfold lift at 1. cbn [py_mul as_float mbind result_bind].
    io_bind. unfold lift at 1.
    change (SFmul prec emax S754_nan float_1e6) with S754_nan.
    io_bind. unfold setup_sweep_simple. io_bind. unfold lift at 1.
    destruct (Hstep S754_nan (SFmul prec emax stop_mhz float_1e6)) as [q ->].
    io_bind. unfold lift at 1. done.
  - unfold measure_once.
    destruct stop_mhz as [s|[]| |s m e]; cbn [is_infinity_neg]; try done.
    all: replace ((points <? 2) || (1001 <? points)) with false by lia.
    all: try (change (py_ge (PyFloat (S754_infinity true)) (PyFloat _)) with false;
              cbv iota).
    all: io_bind; unfold lift at 1; cbn [py_mul as_float mbind result_bind].
    all: io_bind; unfold lift at 1.
    all: change (SFmul prec emax (S754_infinity true) float_1e6)
           with (S754_infinity true).
    all: io_bind; unfold setup_sweep_simple; io_bind; unfold lift at 1.
    all: match goal with
         | |- context [sweep_step_hz (PyFloat ?a) (PyFloat ?b) _] =>
             destruct (Hstep a b) as [q ->]
         end.
    all: io_bind; unfold lift at 1; done.
Qed.
End Menus.

Lemma measure_once_not_a_number_witness :
  2 <= 101 <= 1001 ∧
  measure_once (ops:=ieee_complex) (PyFloat S754_nan) (PyFloat float_100e6) 101 idle
    = (Raise ValueError, idle) ∧
  measure_once (ops:=ieee_complex) (PyFloat (S754_infinity true)) (PyFloat float_100e6)
      101 idle
    = (if is_infinity_neg float_100e6 then Ok None else Raise OverflowError, idle).
Proof.
  split; [lia|].
  apply (measure_once_not_a_number (ops:=ieee_complex) idle float_100e6 101). lia.
Defined.

(** ** Sessions of [s2p_extraction.main] *)

Lemma endswith_app (s t ext : string) :
  endswith t ext = true → endswith (s +:+ t) ext = true.
Proof.
  intros Ht. induction s as [|c s IH]; [done|].
  change (String c s +:+ t) with (String c (s +:+ t)).
  cbn [endswith]. rewrite IH. apply orb_true_r.
Qed.

Lemma endswith_refl (s : string) : endswith s s = true.
Proof. destruct s; cbn [endswith]; by rewrite String.eqb_refl. Qed.

(** The name under which [save_s2p_file] and [save_csv_file] write always
    carries the extension, the given name is kept in front of it, and a
    name that has the extension already is left alone, so that saving under
    the name just used changes nothing more. *)
Theorem saved_file_extension (ext filename : string) :
  endswith (ensure_extension ext filename) ext = true ∧
  (∃ rest, ensure_extension ext filename = filename +:+ rest ∧
           (rest = "" ∨ rest = ext)) ∧
  ensure_extension ext (ensure_extension ext filename)
    = ensure_extension ext filename.
Proof.
  assert (endswith (ensure_extension ext filename) ext = true) as Hext.
  { unfold ensure_extension. destruct (endswith filename ext) eqn:He; [done|].
    apply endswith_app, endswith_refl. }
  split_and!.
  - done.
  - unfold ensure_extension. destruct (endswith filename ext).
    + exists "". split; [|by left]. clear. induction filename as [|c s IH]; [done|].
      change (String c s +:+ "") with (String c (s +:+ "")). by rewrite <- IH.
    + exists ext. split; [done|by right].
  - unfold ensure_extension at 1. by rewrite Hext.
Qed.

Section SessionFacts.
Context {F C : Type} (czero : C).
Implicit Types (rows : list (F * C * C)) (self : vna_measurement (F:=F) (C:=C)).



(** After a measurement that stored at least one row, the network of the
    Smith chart has the S11 values on both diagonal entries and zero where
    the saved network has S21 and S12. *)
Theorem smith_chart_network rows :
  rows ≠ [] →
  plot_smith_chart czero (store_measurement rows)
    = Ok (Some ((λ r, [[r.1.2; czero]; [czero; r.1.2]]) <$> rows)).
Proof.
  intros Hne.
  set (self := store_measurement rows).
  set (s11 := (λ r, r.1.2) <$> rows).
  assert (s_params self !! "S11" = Some s11) as H11 by done.
  assert (s_params self !! "S22" = Some s11) as H22 by done.
  assert (length s11 = length rows) as Hlen by (subst s11; apply length_fmap).
  unfold plot_smith_chart.
  rewrite bool_decide_false.
  2:{ intros Hempty. rewrite Hempty in H11. done. }
  unfold s_param. rewrite H11, H22. cbn [mbind result_bind].
  replace (length s11 =? 0)%nat with false.
  2:{ symmetry. apply Nat.eqb_neq. rewrite Hlen. by destruct rows. }
  cbn [frequencies self store_measurement].
  rewrite length_fmap.
  rewrite assign_column_same_length
    by (unfold zeros; rewrite length_replicate; done).
  cbn [mbind result_bind].
  rewrite assign_column_same_length
    by (unfold zeros; rewrite length_zip_with, length_replicate; lia).
  do 2 f_equal. subst s11. unfold zeros. clear.
  induction rows as [|[[f a] b] rows IH]; [done|].
  cbn [length replicate fmap list_fmap zip_with]. f_equal. apply IH.
Qed.


End SessionFacts.

Lemma smith_chart_network_witness :
  [(1, 2, 3)] ≠ [] ∧
  plot_smith_chart 0 (store_measurement [(1, 2, 3)]) = Ok (Some [[[2; 0]; [0; 2]]]).
Proof.
  split; [done|]. by apply (smith_chart_network 0 [(1, 2, 3)]).
Defined.

